(** * ledenet-ufo: protocol and connection-lifecycle engine

    A shallow embedding of the TCP frame codec, the TCP client state
    machine with its status cache (lufo-api/src/TcpClient.js and the
    older src/TcpClient.js), and the UDP discovery and AT-command
    framing helpers (UdpUtils, found in the second half of
    src/TcpCustoms.js), followed by the properties established about
    them.

    Conventions of the embedding:
    - a Node [Buffer] or [Uint8Array] is a [list Z] whose elements are
      bytes (0..255); [writeUInt8] is the list update, and every offset used
      by the embedded code is shown to be in range where it matters;
    - JavaScript numbers that the code treats as integers are [Z];
    - JavaScript strings are [string]s of 8-bit characters; the
      whitespace recognised by [trim] and the letters changed by
      [toLowerCase] are the ASCII ones;
    - a promise is identified by the call that created it, and the
      settling of a promise, like every call on the socket, is recorded
      as an [Effect] in the list returned next to the new state;
    - callbacks handed to the socket are defunctionalised: the closure is
      a constructor, and its body is the function that interprets it. *)

From Stdlib Require Import ZArith Lia String Ascii List Bool.
From stdpp Require Import base list strings.
From Equations Require Import Equations.
Import ListNotations.
Open Scope Z_scope.

(* ===================================================================== *)
(** ** Buffers *)
(* ===================================================================== *)

Abbreviation Buffer := (list Z).

Definition is_byte (b : Z) : Prop := 0 <= b < 256.

(** [Buffer.alloc(size)]: a zero-filled buffer. *)
Definition alloc (size : nat) : Buffer := replicate size 0.

(** [source.copy(target)]: overwrite the front of [target] with [source]. *)
Definition copy (source target : Buffer) : Buffer :=
  take (length target) source ++ drop (length source) target.

(** [buf.writeUInt8(value, offset)], for an offset inside the buffer. *)
Definition writeUInt8 (value : Z) (offset : nat) (buf : Buffer) : Buffer :=
  <[offset := value]> buf.

(** [buf.readUInt8(offset)], for an offset inside the buffer. *)
Definition readUInt8 (buf : Buffer) (offset : nat) : Z :=
  default 0 (buf !! offset).

(** [Array.from(buf.values()).forEach((value) => { sum += value; })]. *)
Definition sumBytes (buf : Buffer) : Z := fold_left Z.add buf 0.

(** lodash [_.clamp(number, lower, upper)]: first the upper bound, then the
    lower one. *)
Definition clamp (number lower upper : Z) : Z :=
  let number := if number <=? upper then number else upper in
  if number >=? lower then number else lower.

(* ===================================================================== *)
(** ** Private variables and functions of lufo-api/src/TcpClient.js *)
(* ===================================================================== *)

Definition defaultPort : Z := 5577.
Definition statusHeader : Z := 0x81.
Definition statusRequest : Buffer := [statusHeader; 0x8A; 0x8B; 0x96].
Definition statusResponseSize : nat := 14.
Definition emptyBuffer : Buffer := [].
Definition powerOn : Buffer := [0x71; 0x23; 0x0F; 0xA3].
Definition powerOff : Buffer := [0x71; 0x24; 0x0F; 0xA4].

Definition builtinFunctionMap : list (string * Z) :=
  [ ("sevenColorCrossFade", 0x25);
    ("redGradualChange", 0x26);
    ("greenGradualChange", 0x27);
    ("blueGradualChange", 0x28);
    ("yellowGradualChange", 0x29);
    ("cyanGradualChange", 0x2A);
    ("purpleGradualChange", 0x2B);
    ("whiteGradualChange", 0x2C);
    ("redGreenCrossFade", 0x2D);
    ("redBlueCrossFade", 0x2E);
    ("greenBlueCrossFade", 0x2F);
    ("sevenColorStrobeFlash", 0x30);
    ("redStrobeFlash", 0x31);
    ("greenStrobeFlash", 0x32);
    ("blueStrobeFlash", 0x33);
    ("yellowStrobeFlash", 0x34);
    ("cyanStrobeFlash", 0x35);
    ("purpleStrobeFlash", 0x36);
    ("whiteStrobeFlash", 0x37);
    ("sevenColorJumpingChange", 0x38);
    ("noFunction", 0x61);
    ("postReset", 0x63) ]%string.

Definition maxBuiltinSpeed : Z := 100.
Definition maxCustomSteps : nat := 16.
Definition maxCustomSpeed : Z := 30.

Definition _clampRGBW (value : Z) : Z := clamp value 0 255.

(** Expands the buffer by two: the "local" flag 0x0f and the checksum. *)
Definition _prepareBytes (buf : Buffer) : Buffer :=
  let newBuf := copy buf (alloc (length buf + 2)) in
  let newBuf := writeUInt8 0x0f (length newBuf - 2) newBuf in
  let lastIndex := (length newBuf - 1)%nat in
  let newBuf := writeUInt8 0 lastIndex newBuf in
  let checksum := sumBytes newBuf in
  let checksum := checksum mod 0x100 in
  writeUInt8 checksum lastIndex newBuf.

Definition _builtinFlipSpeed (speed : Z) : Z :=
  Z.abs (clamp speed 0 maxBuiltinSpeed - maxBuiltinSpeed).

Definition _customFlipSpeed (speed : Z) : Z :=
  Z.abs (clamp speed 0 maxCustomSpeed - maxCustomSpeed).

(** [builtinFunctionMap.get(name)]. *)
Fixpoint mapGet (m : list (string * Z)) (name : string) : option Z :=
  match m with
  | [] => None
  | (k, v) :: m' => if String.eqb k name then Some v else mapGet m' name
  end.

(** The [forEach] of the status decoder: the first key whose value is the
    mode byte. *)
Fixpoint nameOfId (m : list (string * Z)) (id : Z) : option string :=
  match m with
  | [] => None
  | (k, v) :: m' => if v =? id then Some k else nameOfId m' id
  end.

(* ===================================================================== *)
(** ** Custom steps *)
(* ===================================================================== *)

Module CustomStep.
Record t := mk { red : Z; green : Z; blue : Z }.
End CustomStep.

Definition nullStep : CustomStep.t := CustomStep.mk 1 2 3.

(** lufo-api: [_isNullStep]. The null checks of the source are always
    passed by a step of the declared type. *)
Definition _isNullStep (step : CustomStep.t) : bool :=
  (CustomStep.red step =? CustomStep.red nullStep) &&
  (CustomStep.green step =? CustomStep.green nullStep) &&
  (CustomStep.blue step =? CustomStep.blue nullStep).

(** The [while (stepsCopy.length < maxCustomSteps) stepsCopy.push(nullStep)]
    loop; it terminates because every turn brings the length closer to 16. *)
Equations? padSteps (stepsCopy : list CustomStep.t) : list CustomStep.t
  by wf (maxCustomSteps - length stepsCopy)%nat lt :=
  padSteps stepsCopy with lt_dec (length stepsCopy) maxCustomSteps := {
    | left _ => padSteps (stepsCopy ++ [nullStep]);
    | right _ => stepsCopy }.
Proof. rewrite length_app; simpl; lia. Qed.

(** lufo-api: the step list that [custom] writes:
    [steps.filter(s => !_isNullStep(s)).slice(0, maxCustomSteps)], padded. *)
Definition stepsCopy (steps : list CustomStep.t) : list CustomStep.t :=
  padSteps (take maxCustomSteps (List.filter (fun s => negb (_isNullStep s)) steps)).

(** The older src/TcpClient.js spells the predicate out in place and takes
    the sentinel and the count from TcpCustoms. *)
Module Legacy.
Definition stepCount : nat := 16.
Definition getNullStep : CustomStep.t := CustomStep.mk 1 2 3.
Definition getStepCount : nat := stepCount.

Equations? padSteps (stepsCopy : list CustomStep.t) : list CustomStep.t
  by wf (getStepCount - length stepsCopy)%nat lt :=
  padSteps stepsCopy with lt_dec (length stepsCopy) getStepCount := {
    | left _ => padSteps (stepsCopy ++ [getNullStep]);
    | right _ => stepsCopy }.
Proof. rewrite length_app; simpl; lia. Qed.

Definition stepsCopy (steps : list CustomStep.t) : list CustomStep.t :=
  let nullStep := getNullStep in
  let stepCount := getStepCount in
  padSteps (take stepCount
    (List.filter (fun s => negb ((CustomStep.red s =? CustomStep.red nullStep) &&
                                 (CustomStep.green s =? CustomStep.green nullStep) &&
                                 (CustomStep.blue s =? CustomStep.blue nullStep))) steps)).
End Legacy.

(** The four bytes of each step: [forEach] over the step list, writing at a
    running index. *)
Definition stepBytes (step : CustomStep.t) : Buffer :=
  [_clampRGBW (CustomStep.red step);
   _clampRGBW (CustomStep.green step);
   _clampRGBW (CustomStep.blue step);
   0].

Definition customModeId (mode : string) : option Z :=
  if String.eqb mode "gradual" then Some 0x3A
  else if String.eqb mode "jumping" then Some 0x3B
  else if String.eqb mode "strobe" then Some 0x3C
  else None.

(** The 68-byte buffer of [custom], before the flag and the checksum. *)
Definition customBuffer (modeId speed : Z) (steps : list CustomStep.t) : Buffer :=
  [0x51] ++ concat (map stepBytes (stepsCopy steps))
         ++ [_customFlipSpeed speed + 1; modeId; 0xFF].

(* ===================================================================== *)
(** ** Status frames *)
(* ===================================================================== *)

Inductive Error :=
| HeaderMismatch
| ChecksumMismatch
| ImpossiblePower (power : Z)
| ImpossibleMode (mode : Z)
| NoSuchBuiltin (name : string)
| InvalidMode (mode : string)
| SocketError (code : string).

Module UfoStatus.
Record t := mk {
  raw : Buffer;
  on : bool;
  mode : string;
  speed : option Z;
  red : Z;
  green : Z;
  blue : Z;
  white : Z }.

Definition set_raw (v : Buffer) (s : t) : t :=
  mk v (on s) (mode s) (speed s) (red s) (green s) (blue s) (white s).
Definition set_on (v : bool) (s : t) : t :=
  mk (raw s) v (mode s) (speed s) (red s) (green s) (blue s) (white s).
Definition set_mode (v : string) (s : t) : t :=
  mk (raw s) (on s) v (speed s) (red s) (green s) (blue s) (white s).
Definition set_speed (v : option Z) (s : t) : t :=
  mk (raw s) (on s) (mode s) v (red s) (green s) (blue s) (white s).
Definition set_red (v : Z) (s : t) : t :=
  mk (raw s) (on s) (mode s) (speed s) v (green s) (blue s) (white s).
Definition set_green (v : Z) (s : t) : t :=
  mk (raw s) (on s) (mode s) (speed s) (red s) v (blue s) (white s).
Definition set_blue (v : Z) (s : t) : t :=
  mk (raw s) (on s) (mode s) (speed s) (red s) (green s) v (white s).
Definition set_white (v : Z) (s : t) : t :=
  mk (raw s) (on s) (mode s) (speed s) (red s) (green s) (blue s) v.
End UfoStatus.

(** [str.startsWith(prefix)]. *)
Definition startsWith (str prefix : string) : bool := String.prefix prefix str.

(** The [switch (power)] of the decoder: on, off, or no such value. *)
Definition powerOfByte (power : Z) : option bool :=
  if power =? 0x23 then Some true
  else if power =? 0x24 then Some false
  else None.

(** The [switch (mode)] of the decoder; the default case looks the byte up
    among the ids of the built-in functions. *)
Definition modeOfByte (mode : Z) : option string :=
  if mode =? 0x62 then Some "other"
  else if mode =? 0x61 then Some "static"
  else if mode =? 0x60 then Some "custom"
  else match nameOfId builtinFunctionMap mode with
       | Some name => Some ("function:" ++ name)%string
       | None => None
       end.

(** The body of [_receiveStatus] once the 14 bytes are there: the pair
    [(err, finalResult)] that is handed to the status callback. The checks
    are chained through [err] exactly as in the source. *)
Definition decodeStatus (responseBytes : Buffer) : option Error * option UfoStatus.t :=
  let err : option Error := None in
  let result := UfoStatus.mk emptyBuffer false "" None 0 0 0 0 in
  let '(err, result) :=
    if readUInt8 responseBytes 0 =? statusHeader then
      let result := UfoStatus.set_raw responseBytes result in
      let lastIndex := (statusResponseSize - 1)%nat in
      let expectedChecksum := readUInt8 responseBytes lastIndex in
      let zeroed := writeUInt8 0 lastIndex responseBytes in
      let actualChecksum := sumBytes zeroed in
      let actualChecksum := actualChecksum mod 0x100 in
      if negb (expectedChecksum =? actualChecksum)
      then (Some ChecksumMismatch, result)
      else (err, result)
    else (Some HeaderMismatch, result) in
  let '(err, result) :=
    match err with
    | Some _ => (err, result)
    | None =>
        let power := readUInt8 responseBytes 2 in
        match powerOfByte power with
        | Some on => (err, UfoStatus.set_on on result)
        | None => (Some (ImpossiblePower power), result)
        end
    end in
  let '(err, result) :=
    match err with
    | Some _ => (err, result)
    | None =>
        let mode := readUInt8 responseBytes 3 in
        match modeOfByte mode with
        | Some name => (err, UfoStatus.set_mode name result)
        | None => (Some (ImpossibleMode mode), result)
        end
    end in
  let result :=
    match err with
    | Some _ => result
    | None =>
        let speed := readUInt8 responseBytes 5 in
        let result :=
          if String.eqb (UfoStatus.mode result) "custom"
          then UfoStatus.set_speed (Some (_customFlipSpeed (speed - 1))) result
          else result in
        if startsWith (UfoStatus.mode result) "function"
        then UfoStatus.set_speed (Some (_builtinFlipSpeed speed)) result
        else result
    end in
  let result :=
    match err with
    | Some _ => result
    | None =>
        UfoStatus.set_white (readUInt8 responseBytes 9)
          (UfoStatus.set_blue (readUInt8 responseBytes 8)
            (UfoStatus.set_green (readUInt8 responseBytes 7)
              (UfoStatus.set_red (readUInt8 responseBytes 6) result)))
    end in
  let finalResult := match err with None => Some result | Some _ => None end in
  (err, finalResult).

(* ===================================================================== *)
(** ** The TCP client (lufo-api/src/TcpClient.js) *)
(* ===================================================================== *)

Module TcpClient.

Record TcpOptions := mkOptions {
  localPort : Z;
  localAddress : string;
  remotePort : Z;
  remoteAddress : string;
  immediate : bool;
  cache : bool }.

(** The promises handed out by the public methods. The status promise that
    [connect] creates to prime the cache carries [connect]'s own
    [then]/[catch] handlers, which settle the connect promise after it. *)
Inductive Promise :=
| PConnect
| PStatus (primesConnect : bool)
| POn
| POff
| PRgbw
| PBuiltin
| PCustom.

(** The [resolve] wrappers given to [_writePromise], with the variables each
    closure captures. *)
Inductive WriteCallback :=
| OnWritten
| OffWritten
| RgbwWritten (finalData : Buffer) (realRed realGreen realBlue realWhite : Z)
| BuiltinWritten
| CustomWritten.

(** The two listeners that [connect] registers for the socket's 'error'
    event: [connectFailure] until the connection stands, the recording
    handler afterwards. *)
Inductive ErrorListener :=
| ConnectFailure
| RecordError.

Record ConnectOptions := mkConnect {
  family : Z;
  host : string;
  port : Z;
  connectLocalAddress : option string;
  connectLocalPort : option Z }.

Inductive Effect :=
| SocketNew
| SocketSetNoDelay (noDelay : bool)
| SocketPause
| SocketResume
| SocketUnref
| SocketDestroy
| SocketEnd
| SocketConnect (options : ConnectOptions)
| SocketWrite (buffer : Buffer)
| OnTcpDead (error : option Error) (callback : option Promise)
| PromiseResolved (p : Promise) (value : option UfoStatus.t)
| PromiseRejected (p : Promise) (error : Error)
| Thrown (exception : string).

(** What the client holds of its socket: whether reading is paused, the
    'error' listeners in registration order, and the callbacks of the writes
    that have not completed yet, oldest first ([None] for a write issued
    without a callback). *)
Record Socket := mkSocket {
  paused : bool;
  errorListeners : list ErrorListener;
  pendingWrites : list (option WriteCallback) }.

Record t := mk {
  _options : TcpOptions;
  _dead : bool;
  _connectFailed : bool;
  _disconnectCallback : option Promise;
  _statusArray : Buffer;
  _statusIndex : nat;
  _statusCache : option UfoStatus.t;
  _socket : Socket;
  _error : option Error;
  _statusCallback : option Promise }.

Definition set_dead (v : bool) (c : t) : t :=
  mk (_options c) v (_connectFailed c) (_disconnectCallback c) (_statusArray c)
     (_statusIndex c) (_statusCache c) (_socket c) (_error c) (_statusCallback c).
Definition set_connectFailed (v : bool) (c : t) : t :=
  mk (_options c) (_dead c) v (_disconnectCallback c) (_statusArray c)
     (_statusIndex c) (_statusCache c) (_socket c) (_error c) (_statusCallback c).
Definition set_disconnectCallback (v : option Promise) (c : t) : t :=
  mk (_options c) (_dead c) (_connectFailed c) v (_statusArray c)
     (_statusIndex c) (_statusCache c) (_socket c) (_error c) (_statusCallback c).
Definition set_statusArray (v : Buffer) (c : t) : t :=
  mk (_options c) (_dead c) (_connectFailed c) (_disconnectCallback c) v
     (_statusIndex c) (_statusCache c) (_socket c) (_error c) (_statusCallback c).
Definition set_statusIndex (v : nat) (c : t) : t :=
  mk (_options c) (_dead c) (_connectFailed c) (_disconnectCallback c) (_statusArray c)
     v (_statusCache c) (_socket c) (_error c) (_statusCallback c).
Definition set_statusCache (v : option UfoStatus.t) (c : t) : t :=
  mk (_options c) (_dead c) (_connectFailed c) (_disconnectCallback c) (_statusArray c)
     (_statusIndex c) v (_socket c) (_error c) (_statusCallback c).
Definition set_socket (v : Socket) (c : t) : t :=
  mk (_options c) (_dead c) (_connectFailed c) (_disconnectCallback c) (_statusArray c)
     (_statusIndex c) (_statusCache c) v (_error c) (_statusCallback c).
Definition set_error (v : option Error) (c : t) : t :=
  mk (_options c) (_dead c) (_connectFailed c) (_disconnectCallback c) (_statusArray c)
     (_statusIndex c) (_statusCache c) (_socket c) v (_statusCallback c).
Definition set_statusCallback (v : option Promise) (c : t) : t :=
  mk (_options c) (_dead c) (_connectFailed c) (_disconnectCallback c) (_statusArray c)
     (_statusIndex c) (_statusCache c) (_socket c) (_error c) v.

(** A step of the client: the new state and what it did to the outside. *)
Definition Step := (t * list Effect)%type.

(** Run [g] on the state left by a step, appending its effects. *)
Definition andThen (s : Step) (g : t -> Step) : Step :=
  let '(c, es) := s in
  let '(c', es') := g c in
  (c', es ++ es').

Notation "s >>> g" := (andThen s g) (at level 61, left associativity).

Definition pure (c : t) : Step := (c, []).
Definition emit (es : list Effect) (c : t) : Step := (c, es).

(** Settling a promise; the status promise created by [connect] passes its
    outcome on to the connect promise. *)
Definition resolve (p : Promise) (value : option UfoStatus.t) : list Effect :=
  match p with
  | PStatus true => [PromiseResolved p value; PromiseResolved PConnect None]
  | _ => [PromiseResolved p value]
  end.

Definition reject (p : Promise) (err : Error) : list Effect :=
  match p with
  | PStatus true => [PromiseRejected p err; PromiseRejected PConnect err]
  | _ => [PromiseRejected p err]
  end.

(** [socket.pause()] and [socket.resume()]. *)
Definition socketPause (c : t) : Step :=
  let s := _socket c in
  (set_socket (mkSocket true (errorListeners s) (pendingWrites s)) c, [SocketPause]).

Definition socketResume (c : t) : Step :=
  let s := _socket c in
  (set_socket (mkSocket false (errorListeners s) (pendingWrites s)) c, [SocketResume]).

(** [socket.write(buffer, callback)]. *)
Definition socketWrite (buffer : Buffer) (callback : option WriteCallback) (c : t) : Step :=
  let s := _socket c in
  (set_socket (mkSocket (paused s) (errorListeners s) (pendingWrites s ++ [callback])) c,
   [SocketWrite buffer]).

(** [socket.on('error', listener)]. *)
Definition socketOnError (l : ErrorListener) (c : t) : t :=
  let s := _socket c in
  set_socket (mkSocket (paused s) (errorListeners s ++ [l]) (pendingWrites s)) c.

(** Remove the first occurrence of a listener from a list. *)
Fixpoint removeFirst (l : ErrorListener) (ls : list ErrorListener) : list ErrorListener :=
  match ls with
  | [] => []
  | x :: ls' =>
      match l, x with
      | ConnectFailure, ConnectFailure | RecordError, RecordError => ls'
      | _, _ => x :: removeFirst l ls'
      end
  end.

(** [socket.removeListener('error', listener)]: the most recently added
    instance goes. *)
Definition socketRemoveErrorListener (l : ErrorListener) (c : t) : t :=
  let s := _socket c in
  set_socket (mkSocket (paused s) (rev (removeFirst l (rev (errorListeners s))))
                       (pendingWrites s)) c.

(** [_createSocket]. [_options] and [_statusCallback] are the two fields it
    does not assign. *)
Definition _createSocket (c : t) : Step :=
  (mk (_options c) false false None (alloc statusResponseSize) 0 None
      (mkSocket true [] []) None (_statusCallback c),
   [SocketNew; SocketSetNoDelay (immediate (_options c)); SocketPause]).

(** [_updateStatusCache(path, value)]; the [_.set(cache, path, value)] it
    performs is passed as the field update [f]. *)
Definition _updateStatusCache (f : UfoStatus.t -> UfoStatus.t) (c : t) : t :=
  match _statusCache c with
  | Some s => set_statusCache (Some (f s)) c
  | None => c
  end.

(** [_unsetStatusCache()] with no argument: the whole cache goes. *)
Definition _unsetStatusCache (c : t) : t := set_statusCache None c.

(** [_unsetStatusCache(path)], with [_.unset(cache, path)] passed as [f]. *)
Definition _unsetStatusCachePath (f : UfoStatus.t -> UfoStatus.t) (c : t) : t :=
  match _statusCache c with
  | Some s => set_statusCache (Some (f s)) c
  | None => c
  end.

(** [_writePromise(buffer, resolve, reject)]; the callback that the socket
    keeps is interpreted by [writeCallback] below. *)
Definition _writePromise (buffer : Buffer) (k : WriteCallback) (p : Promise) (c : t) : Step :=
  socketWrite buffer (Some k) (set_disconnectCallback (Some p) c).

(** The promise a write callback resolves. *)
Definition promiseOf (k : WriteCallback) : Promise :=
  match k with
  | OnWritten => POn
  | OffWritten => POff
  | RgbwWritten _ _ _ _ _ => PRgbw
  | BuiltinWritten => PBuiltin
  | CustomWritten => PCustom
  end.

(** The callback of [_writePromise]: clear [_disconnectCallback], then run
    the [resolve] wrapper of the method that wrote. *)
Definition writeCallback (k : WriteCallback) (c : t) : Step :=
  let c := set_disconnectCallback None c in
  let c :=
    match k with
    | OnWritten => _updateStatusCache (UfoStatus.set_on true) c
    | OffWritten => _updateStatusCache (UfoStatus.set_on false) c
    | RgbwWritten finalData realRed realGreen realBlue realWhite =>
        let c := _updateStatusCache (UfoStatus.set_raw finalData) c in
        let c := _updateStatusCache (UfoStatus.set_mode "static") c in
        let c := _unsetStatusCachePath (UfoStatus.set_speed None) c in
        let c := _updateStatusCache (UfoStatus.set_red realRed) c in
        let c := _updateStatusCache (UfoStatus.set_green realGreen) c in
        let c := _updateStatusCache (UfoStatus.set_blue realBlue) c in
        _updateStatusCache (UfoStatus.set_white realWhite) c
    | BuiltinWritten => _unsetStatusCache c
    | CustomWritten => _unsetStatusCache c
    end in
  (c, resolve (promiseOf k) None).

(** The closure that [status] stores in [_statusCallback], run with the
    [(err, data)] of the decoder; [p] is the status promise it settles. *)
Definition statusCallback (p : Promise) (err : option Error) (data : option UfoStatus.t)
    (c : t) : Step :=
  let c := set_statusCallback None c in
  socketPause c >>> fun c =>
  match err with
  | Some e => (set_statusCache None c, reject p e)
  | None => (set_statusCache data (set_disconnectCallback None c), resolve p data)
  end.

(** [status(force)]; [p] is the promise it returns. *)
Definition statusAs (p : Promise) (force : bool) (c : t) : Step :=
  if _dead c then (c, resolve p None)
  else
    let cacheIsEnabled := cache (_options c) in
    let cacheExists := match _statusCache c with Some _ => true | None => false end in
    let isStatic :=
      cacheExists &&
      match _statusCache c with
      | Some s => String.eqb (UfoStatus.mode s) "static"
      | None => false
      end in
    if cacheIsEnabled && negb force && cacheExists && isStatic
    then (c, resolve p (_statusCache c))
    else
      socketResume c >>> fun c =>
      let c := set_statusCallback (Some p) c in
      let c := set_disconnectCallback (Some p) c in
      socketWrite statusRequest None c.

Definition status (force : bool) (c : t) : Step := statusAs (PStatus false) force c.

(** The [options] object that [connect] builds: the local address and port
    are set only when configured. *)
Definition connectOptions (o : TcpOptions) : ConnectOptions :=
  mkConnect 4 (remoteAddress o) (remotePort o)
    (if (0 <? Z.of_nat (String.length (localAddress o))) then Some (localAddress o) else None)
    (if (0 <? localPort o) then Some (localPort o) else None).

(** [connect()]. *)
Definition connect (c : t) : Step :=
  if _dead c then (c, resolve PConnect None)
  else
    let options := connectOptions (_options c) in
    let c := socketOnError ConnectFailure c in
    (c, [SocketConnect options]).

(** The callback given to [socket.connect]: the connection stands. *)
Definition connected (c : t) : Step :=
  let c := socketRemoveErrorListener ConnectFailure c in
  let c := socketOnError RecordError c in
  if cache (_options c)
  then statusAs (PStatus true) false c
  else (c, resolve PConnect None).

(** One 'error' listener. *)
Definition errorListener (l : ErrorListener) (err : Error) (c : t) : Step :=
  match l with
  | ConnectFailure => (set_connectFailed true c, reject PConnect err)
  | RecordError => (set_error (Some err) c, [])
  end.

(** The 'error' event of the socket: every listener in turn; with no
    listener Node throws the error. *)
Definition socketError (err : Error) (c : t) : Step :=
  match errorListeners (_socket c) with
  | [] => (c, [Thrown "Unhandled 'error' event"])
  | ls => fold_left (fun s l => s >>> errorListener l err) ls (pure c)
  end.

(** [_closeSocket]. *)
Definition _closeSocket (c : t) : Step :=
  if _connectFailed c then pure c
  else
    let reconnect := negb (_dead c) in
    let err : option Error := None in
    let '(reconnect, err) :=
      if reconnect
      then let err := _error c in
           ((match err with Some _ => false | None => reconnect end), err)
      else (reconnect, err) in
    emit [SocketUnref; SocketDestroy] c >>> fun c =>
    if reconnect
    then _createSocket c >>> connect
    else
      let c := set_dead true c in
      (c, [OnTcpDead (_error c) (_disconnectCallback c)]).

(** [disconnect()]; [emit('close')] runs the close listener on the spot. *)
Definition disconnect (c : t) : Step :=
  if _dead c then pure c
  else
    let c := set_dead true c in
    emit [SocketEnd] c >>> _closeSocket.

(** [typedArray.set(data, offset)], for data that fits. *)
Definition arraySet (data : Buffer) (offset : nat) (array : Buffer) : Buffer :=
  take offset array ++ data ++ drop (offset + length data) array.

(** [_receiveStatus(data)]. [Uint8Array.prototype.set] throws a RangeError
    when the data does not fit behind the offset, and the handler is left
    at that point. *)
Definition _receiveStatus (data : Buffer) (c : t) : Step :=
  match _error c with
  | Some _ => pure c
  | None =>
      let oldIndex := _statusIndex c in
      let newIndex := (oldIndex + length data)%nat in
      if (length (_statusArray c) <? oldIndex + length data)%nat
      then (c, [Thrown "RangeError"])
      else
        let c := set_statusArray (arraySet data oldIndex (_statusArray c)) c in
        if (statusResponseSize <=? newIndex)%nat
        then
          let responseBytes := _statusArray c in
          let c := set_statusArray (alloc (length (_statusArray c))) c in
          let newIndex := 0%nat in
          let '(err, finalResult) := decodeStatus responseBytes in
          (match _statusCallback c with
           | Some p => statusCallback p err finalResult c
           | None => pure c
           end) >>> fun c =>
          pure (set_statusIndex newIndex c)
        else pure (set_statusIndex newIndex c)
  end.

(** The completion of the oldest pending write. *)
Definition written (c : t) : Step :=
  let s := _socket c in
  match pendingWrites s with
  | [] => pure c
  | k :: rest =>
      let c := set_socket (mkSocket (paused s) (errorListeners s) rest) c in
      match k with
      | Some k => writeCallback k c
      | None => pure c
      end
  end.

Definition on (c : t) : Step :=
  if _dead c then (c, resolve POn None)
  else _writePromise powerOn OnWritten POn c.

Definition off (c : t) : Step :=
  if _dead c then (c, resolve POff None)
  else _writePromise powerOff OffWritten POff c.

Definition rgbw (red green blue white : Z) (c : t) : Step :=
  if _dead c then (c, resolve PRgbw None)
  else
    let buf := alloc 6 in
    let buf := writeUInt8 0x31 0 buf in
    let realRed := _clampRGBW red in
    let realGreen := _clampRGBW green in
    let realBlue := _clampRGBW blue in
    let realWhite := _clampRGBW white in
    let buf := writeUInt8 realRed 1 buf in
    let buf := writeUInt8 realGreen 2 buf in
    let buf := writeUInt8 realBlue 3 buf in
    let buf := writeUInt8 realWhite 4 buf in
    let buf := writeUInt8 0 5 buf in
    let finalData := _prepareBytes buf in
    _writePromise finalData (RgbwWritten finalData realRed realGreen realBlue realWhite) PRgbw c.

Definition builtin (name : string) (speed : Z) (c : t) : Step :=
  if _dead c then (c, resolve PBuiltin None)
  else
    match mapGet builtinFunctionMap name with
    | None => (c, reject PBuiltin (NoSuchBuiltin name))
    | Some functionId =>
        let buf := alloc 3 in
        let buf := writeUInt8 0x61 0 buf in
        let buf := writeUInt8 functionId 1 buf in
        let buf := writeUInt8 (_builtinFlipSpeed speed) 2 buf in
        _writePromise (_prepareBytes buf) BuiltinWritten PBuiltin c
    end.

Definition custom (mode : string) (speed : Z) (steps : list CustomStep.t) (c : t) : Step :=
  if _dead c then (c, resolve PCustom None)
  else
    match customModeId mode with
    | None => (c, reject PCustom (InvalidMode mode))
    | Some modeId =>
        _writePromise (_prepareBytes (customBuffer modeId speed steps)) CustomWritten PCustom c
    end.

(** [new TcpClient(ufo, options)]. *)
Definition new (options : TcpOptions) : Step :=
  _createSocket (mk options false false None [] 0 None (mkSocket true [] []) None None).

(** What can happen to a client: a call of a public method, or an event of
    its socket. *)
Inductive Action :=
| CallConnect
| CallDisconnect
| CallStatus (force : bool)
| CallOn
| CallOff
| CallRgbw (red green blue white : Z)
| CallBuiltin (name : string) (speed : Z)
| CallCustom (mode : string) (speed : Z) (steps : list CustomStep.t)
| EvConnected
| EvError (err : Error)
| EvClose
| EvData (data : Buffer)
| EvWritten.

Definition step (a : Action) (c : t) : Step :=
  match a with
  | CallConnect => connect c
  | CallDisconnect => disconnect c
  | CallStatus force => status force c
  | CallOn => on c
  | CallOff => off c
  | CallRgbw r g b w => rgbw r g b w c
  | CallBuiltin name speed => builtin name speed c
  | CallCustom mode speed steps => custom mode speed steps c
  | EvConnected => connected c
  | EvError err => socketError err c
  | EvClose => _closeSocket c
  | EvData data => _receiveStatus data c
  | EvWritten => written c
  end.

Fixpoint run (actions : list Action) (c : t) : Step :=
  match actions with
  | [] => pure c
  | a :: rest => step a c >>> run rest
  end.

Definition isConnect (e : Effect) : bool :=
  match e with
  | SocketConnect _ => true
  | _ => false
  end.

End TcpClient.

(* ===================================================================== *)
(** ** UDP utilities (UdpUtils, in the second half of src/TcpCustoms.js) *)
(* ===================================================================== *)

Module UdpUtils.

(** A JavaScript string, as the list of its characters, so that
    [substring], [startsWith] and [endsWith] are [take], [drop] and
    comparisons of lists. The characters are the code units U+0000 to
    U+00FF. *)
Abbreviation jsString := (list ascii).

Definition str (s : string) : jsString := list_ascii_of_string s.

Definition jsStringEqb (a b : jsString) : bool := bool_decide (a = b).

(** [s.substring(start)] and [s.substring(0, end)]; a negative [end] counts
    as 0, which is what the truncated subtraction of [nat] gives. *)
Definition substringFrom (start : nat) (s : jsString) : jsString := drop start s.
Definition substringTo (end_ : nat) (s : jsString) : jsString := take end_ s.

Definition startsWith (s prefix : jsString) : bool :=
  jsStringEqb (take (length prefix) s) prefix.

Definition endsWith (s suffix : jsString) : bool :=
  (length suffix <=? length s)%nat &&
  jsStringEqb (drop (length s - length suffix) s) suffix.

(** The characters [trim] removes, as far as they lie below U+0100: the
    white space TAB, VT, FF, SP and NBSP (U+00A0) and the line terminators
    LF and CR. *)
Definition isWhiteSpace (c : ascii) : bool :=
  let n := nat_of_ascii c in
  ((9 <=? n) && (n <=? 13) || (n =? 32) || (n =? 160))%nat.

Fixpoint trimStart (s : jsString) : jsString :=
  match s with
  | [] => []
  | c :: s' => if isWhiteSpace c then trimStart s' else s
  end.

Definition trimEnd (s : jsString) : jsString := rev (trimStart (rev s)).

Definition trim (s : jsString) : jsString := trimEnd (trimStart s).

(** [s.split(',')]: never empty; an empty string gives one empty field. *)
Fixpoint split (sep : ascii) (s : jsString) : list jsString :=
  match s with
  | [] => [[]]
  | c :: s' =>
      if Ascii.eqb c sep then [] :: split sep s'
      else match split sep s' with
           | [] => [[c]]
           | field :: fields => (c :: field) :: fields
           end
  end.

(** [a.join(',')]. *)
Fixpoint join (sep : ascii) (fields : list jsString) : jsString :=
  match fields with
  | [] => []
  | [field] => field
  | field :: fields' => field ++ sep :: join sep fields'
  end.

(** [toLowerCase] on one character below U+0100: the letters A to Z and
    the capital letters U+00C0 to U+00DE, of which the multiplication sign
    U+00D7 is none, have their small letter 32 places further on; every
    other character stays. *)
Definition toLowerChar (c : ascii) : ascii :=
  let n := nat_of_ascii c in
  if ((65 <=? n) && (n <=? 90) || (192 <=? n) && (n <=? 222) && negb (n =? 215))%nat
  then ascii_of_nat (n + 32) else c.

Definition toLowerCase (s : jsString) : jsString := map toLowerChar s.

(** [replace(/[-:]/g, '')]. *)
Definition dropSeparators (s : jsString) : jsString :=
  List.filter (fun c => negb (Ascii.eqb c "-" || Ascii.eqb c ":")) s.

(** The characters that [.] of a regular expression does not match. *)
Definition isLineTerminator (c : ascii) : bool :=
  let n := nat_of_ascii c in ((n =? 10) || (n =? 13))%nat.

(** [replace(/(.{2})/g, '$1:')]: a colon behind every pair, scanning from the
    left; a character that starts no pair is copied. *)
Fixpoint colonPairs (s : jsString) : jsString :=
  match s with
  | [] => []
  | a :: tl =>
      match tl with
      | [] => [a]
      | b :: rest =>
          if negb (isLineTerminator a) && negb (isLineTerminator b)
          then a :: b :: ":"%char :: colonPairs rest
          else a :: colonPairs tl
      end
  end.

(** [slice(0, -1)]. *)
Definition dropLast (s : jsString) : jsString := take (length s - 1) s.

Definition normalizeMac (mac : jsString) : jsString :=
  dropLast (colonPairs (dropSeparators (toLowerCase mac))).

Record HelloResponse := mkHello {
  ip : jsString;
  mac : jsString;
  model : option jsString }.

(** [helloResponseParser] on a string. [None] stands for the TypeError that
    [normalizeMac] throws on the [undefined] it is given when the response
    has no second field; a missing third field leaves [model] undefined. *)
Definition helloResponseParser (response : jsString) : option HelloResponse :=
  let splitResponse := split "," response in
  match splitResponse !! 1%nat with
  | None => None
  | Some field1 =>
      Some (mkHello (default [] (splitResponse !! 0%nat))
                    (normalizeMac field1)
                    (splitResponse !! 2%nat))
  end.

(** The two kinds of value that meet in the comparison of [discover]: a
    string, and a [Buffer] object, known by its reference. *)
Inductive JsValue :=
| JsString (s : jsString)
| JsBuffer (ref : nat) (bytes : jsString).

(** [a !== b]: values of different types are never strictly equal, strings
    are compared by content, objects by reference. *)
Definition strictNotEqual (a b : JsValue) : bool :=
  match a, b with
  | JsString s, JsString s' => negb (jsStringEqb s s')
  | JsBuffer r _, JsBuffer r' _ => negb (r =? r')%nat
  | _, _ => true
  end.

(** [Buffer.from(string)] and [buffer.toString('utf8')], on strings that are
    their own UTF-8 encoding. *)
Definition bufferFrom (ref : nat) (s : jsString) : JsValue := JsBuffer ref s.

Definition toStringUtf8 (msg : JsValue) : jsString :=
  match msg with
  | JsString s => s
  | JsBuffer _ bytes => bytes
  end.

Record DiscoverOptions := mkDiscoverOptions {
  optTimeout : option Z;
  optPassword : option jsString;
  optLocalPort : option Z;
  optRemotePort : option Z }.

Inductive DiscoverEffect :=
| CreateSocket
| Unref
| Bind (localPort : option Z)
| SetBroadcast (flag : bool)
| Send (payload : JsValue) (port : Z) (address : jsString)
| SetTimeout (ms : Z)
| ClearTimeout
| CloseSocket
| Callback (error : option Error) (data : list HelloResponse)
| Uncaught (exception : string).

Section Discover.

(** [UdpStrings.defaultHello()]: a constant of a file that is not part of
    the sources at hand. *)
Variable defaultHello : jsString.

Definition defaultUdpPort : Z := 48899.

(** The variables that the closures of [discover] share. *)
Record Discovery := mkDiscovery {
  error : option Error;
  data : list HelloResponse;
  hello : JsValue;
  timeout : Z;
  remotePort : Z;
  stopDiscover : bool }.

Definition DStep := (Discovery * list DiscoverEffect)%type.

(** [if (stopDiscover) clearTimeout(stopDiscover)]. *)
Definition clearIfSet (d : Discovery) : list DiscoverEffect :=
  if stopDiscover d then [ClearTimeout] else [].

(** The 'close' listener: the callback gets the error and the array. *)
Definition onClose (d : Discovery) : DStep :=
  (d, clearIfSet d ++ [Callback (error d) (data d)]).

(** [socket.close()], which ends in the 'close' event. *)
Definition socketClose (d : Discovery) : DStep :=
  let '(d', es) := onClose d in (d', CloseSocket :: es).

(** The 'error' listener. *)
Definition onError (err : Error) (d : Discovery) : DStep :=
  let es := clearIfSet d in
  let d := mkDiscovery (Some err) (data d) (hello d) (timeout d) (remotePort d) (stopDiscover d) in
  let '(d', es') := socketClose d in (d', es ++ es').

(** The 'message' listener. *)
Definition onMessage (msg : JsValue) (d : Discovery) : DStep :=
  match error d with
  | Some _ => (d, [])
  | None =>
      let message := toStringUtf8 msg in
      if strictNotEqual (JsString message) (hello d)
      then match helloResponseParser message with
           | Some r =>
               (mkDiscovery (error d) (data d ++ [r]) (hello d) (timeout d) (remotePort d)
                            (stopDiscover d), [])
           | None => (d, [Uncaught "TypeError"])
           end
      else (d, [])
  end.

(** The 'listening' listener. *)
Definition onListening (d : Discovery) : DStep :=
  (d, [SetBroadcast true; Send (hello d) (remotePort d) (str "255.255.255.255")]).

(** The callback of [socket.send]. *)
Definition onSent (err : option Error) (d : Discovery) : DStep :=
  match err with
  | Some e => onError e d
  | None =>
      (mkDiscovery (error d) (data d) (hello d) (timeout d) (remotePort d) true,
       [SetTimeout (timeout d)])
  end.

(** The timer: [closeSocket]. *)
Definition onTimeout (d : Discovery) : DStep := socketClose d.

(** The synchronous part of [discover(options, callback)]; [ref] is the
    identity of the [hello] buffer it allocates. *)
Definition discover (ref : nat) (options : DiscoverOptions) : DStep :=
  let hello :=
    bufferFrom ref
      match optPassword options with
      | Some ((_ :: _) as password) => password
      | _ => defaultHello
      end in
  let discoverTimeout := 3000 in
  let timeout :=
    match optTimeout options with
    | Some t => if (t =? 0) || (t <? 0) then discoverTimeout else t
    | None => discoverTimeout
    end in
  let remotePort :=
    match optRemotePort options with
    | Some p => if (p =? 0) || (p <? 0) then defaultUdpPort else p
    | None => defaultUdpPort
    end in
  let localPort :=
    match optLocalPort options with
    | Some p => if (p =? 0) || (p <? 0) then None else Some p
    | None => None
    end in
  (mkDiscovery None [] hello timeout remotePort false,
   [CreateSocket; Unref; Bind localPort]).

Inductive DiscoverEvent :=
| Listening
| Sent (err : option Error)
| Message (msg : JsValue)
| SocketErr (err : Error)
| TimeoutFired.

Definition discoverStep (e : DiscoverEvent) (d : Discovery) : DStep :=
  match e with
  | Listening => onListening d
  | Sent err => onSent err d
  | Message msg => onMessage msg d
  | SocketErr err => onError err d
  | TimeoutFired => onTimeout d
  end.

Fixpoint discoverRun (events : list DiscoverEvent) (s : DStep) : DStep :=
  match events with
  | [] => s
  | e :: rest =>
      let '(d, es) := s in
      let '(d', es') := discoverStep e d in
      discoverRun rest (d', es ++ es')
  end.

End Discover.

(** *** [assembleCommand] *)

(** The [get] and [set] properties of a command, as far as [recv] looks at
    them: an array, a string, or something else. *)
Inductive ParseRole :=
| RoleArray
| RoleString (s : jsString)
| RoleOther.

Record Command := mkCommand {
  cmd : jsString;
  literal : bool;
  get : option ParseRole;
  set : option ParseRole }.

(** What [recv] is bound to: [command[mode] || false]. An absent property
    and an empty string are falsy. *)
Inductive BoundThis :=
| ThisArray
| ThisString (s : jsString)
| ThisOther.

Definition orFalse (role : option ParseRole) : BoundThis :=
  match role with
  | Some RoleArray => ThisArray
  | Some (RoleString ((_ :: _) as s)) => ThisString s
  | _ => ThisOther
  end.

Section AssembleCommand.

(** [UdpCommands.get] and the four strings of [UdpStrings]: tables of files
    that are not part of the sources at hand. *)
Variable commands : jsString -> option Command.
Variables sendPrefix sendSuffix recvPrefix recvSuffix : jsString.

(** The [recv] function, with [this] as an argument. *)
Definition recv (this : BoundThis) (response : jsString) : list jsString :=
  let result := response in
  let result :=
    if startsWith result recvPrefix
    then substringFrom (length recvPrefix) result else result in
  let result :=
    if startsWith result (str "=") then substringFrom 1 result else result in
  let result :=
    if endsWith result recvSuffix
    then substringTo (length result - length recvPrefix) result else result in
  let result := trim result in
  match result with
  | [] => []
  | _ =>
      match this with
      | ThisArray => split "," result
      | ThisString _ => [result]
      | ThisOther => []
      end
  end.

Record Assembled := mkAssembled {
  send : jsString;
  recvFn : jsString -> list jsString }.

(** [assembleCommand(name, ...setArgs)]; [None] when the name is unknown and
    the property access on [undefined] throws. *)
Definition assembleCommand (name : jsString) (setArgs : list jsString) : option Assembled :=
  match commands name with
  | None => None
  | Some command =>
      let cmdString := cmd command in
      let setMode := (0 <? length setArgs)%nat in
      let cmdString :=
        if negb (literal command)
        then
          let cmdString := sendPrefix ++ cmdString in
          let cmdString :=
            if setMode then cmdString ++ str "=" ++ join "," setArgs else cmdString in
          cmdString ++ sendSuffix
        else cmdString in
      Some (mkAssembled cmdString
              (recv (orFalse (if setMode then set command else get command))))
  end.

(** The decoding as the documentation of [assembleCommand] words it: the
    prefix and the suffix are stripped from the response. *)
Definition recv_documented (this : BoundThis) (response : jsString) : list jsString :=
  let result := response in
  let result :=
    if startsWith result recvPrefix
    then substringFrom (length recvPrefix) result else result in
  let result :=
    if startsWith result (str "=") then substringFrom 1 result else result in
  let result :=
    if endsWith result recvSuffix
    then substringTo (length result - length recvSuffix) result else result in
  let result := trim result in
  match result with
  | [] => []
  | _ =>
      match this with
      | ThisArray => split "," result
      | ThisString _ => [result]
      | ThisOther => []
      end
  end.

End AssembleCommand.

End UdpUtils.

(* ===================================================================== *)
(** ** Vocabulary of the statements *)
(* ===================================================================== *)

Module Lifecycle.
Import TcpClient.

(** The client is in service: not marked dead, no transport error recorded,
    and the connection attempt has not failed. *)
Definition inService (c : t) : Prop :=
  _dead c = false /\ _error c = None /\ _connectFailed c = false.

(** The connect attempts among the effects of a step. *)
Definition connects (es : list Effect) : list Effect := List.filter isConnect es.

(** Actions that neither report a transport error nor disconnect. *)
Definition isQuiet (a : Action) : bool :=
  match a with
  | EvError _ | CallDisconnect => false
  | _ => true
  end.

(** The connect attempts an action calls for: one for every close
    notification, one for every call of [connect]. *)
Definition connectsDue (a : Action) : nat :=
  match a with
  | EvClose | CallConnect => 1
  | _ => 0
  end.

(** Calls and completions that happen between two status queries without
    starting a function: on, off, rgbw and finished writes. *)
Definition isPlainControl (a : Action) : bool :=
  match a with
  | CallOn | CallOff | CallRgbw _ _ _ _ | EvWritten => true
  | _ => false
  end.

End Lifecycle.

(* ===================================================================== *)
(** ** Sample inputs *)
(* ===================================================================== *)

Module Samples.
Import TcpClient.

(** The options the constructor derives when only the host is given. *)
Definition sampleOptions : TcpOptions := mkOptions (-1) "" 5577 "10.0.0.5" true true.

(** Twelve bytes laid out like the front of a status response: header,
    0x04, power on, static mode, 0x21, speed, RGBW, and the unused field. *)
Definition samplePayload : Buffer := [0x81; 0x04; 0x23; 0x61; 0x21; 0x05; 1; 2; 3; 4; 0x03; 0x00].

(** A status response in custom mode with speed byte 11. *)
Definition customFrame : Buffer :=
  _prepareBytes [0x81; 0x04; 0x23; 0x60; 0x21; 11; 1; 2; 3; 4; 0x03; 0x00].

(** The bytes that [rgbw(10, 20, 30, 40)] hands to [_prepareBytes]. *)
Definition rgbwPayload : Buffer := [0x31; 10; 20; 30; 40; 0].

(** A client whose connection stands and whose cache is primed. *)
Definition liveClient : t :=
  fst (run [CallConnect; EvConnected; EvWritten; EvData (_prepareBytes samplePayload)]
           (fst (new sampleOptions))).

(** A client whose first connection attempt was refused. *)
Definition refusedClient : t :=
  fst (run [CallConnect; EvError (SocketError "ECONNREFUSED")] (fst (new sampleOptions))).

(** A live client after a built-in function was started and then a static
    colour was set. *)
Definition afterBuiltinThenRgbw : Step :=
  run [CallBuiltin "redStrobeFlash" 50; EvWritten; CallRgbw 10 20 30 40; EvWritten] liveClient.

Definition someSteps : list CustomStep.t :=
  [CustomStep.mk 255 0 0; CustomStep.mk 1 2 3; CustomStep.mk 0 255 0].

End Samples.

Module UdpSamples.
Import UdpUtils.

Definition crlf : jsString := ["013"%char; "010"%char].

(** A discovery whose password, as it happens, reads like a reply. *)
Definition echoOptions : DiscoverOptions :=
  mkDiscoverOptions None (Some (str "10.0.0.9,AC-CF-23-00-00-01,me")) None None.

Definition noOptions : DiscoverOptions := mkDiscoverOptions None None None None.

(** One device answers, then the socket fails. *)
Definition oneReplyThenError : list DiscoverEvent :=
  [Listening; Sent None; Message (JsBuffer 1 (str "10.0.0.5,ACCF23AABBCC,HF-LPB100"));
   SocketErr (SocketError "EIO")].

End UdpSamples.

(* ===================================================================== *)
(** ** Further parts of the sources *)
(* ===================================================================== *)

(** *** TcpCustoms (the first half of src/TcpCustoms.js) *)

Module TcpCustoms.

Definition stepCount : nat := 16.
Definition nullStep : CustomStep.t := CustomStep.mk 1 2 3.

Definition getStepCount : nat := stepCount.
Definition getNullStep : CustomStep.t := nullStep.


End TcpCustoms.

(** *** The static methods of the lufo-api client *)

Definition builtinFunctionReservedNames : list string := ["noFunction"; "postReset"]%string.

(** [names.includes(k)]. *)
Definition includes (names : list string) (k : string) : bool :=
  existsb (String.eqb k) names.

(** [Array.prototype.sort()] without a comparator orders strings by their
    code units; on a list without repetitions the outcome is the one sorted
    arrangement, computed here by insertion. *)
Fixpoint insertSorted (k : string) (sorted : list string) : list string :=
  match sorted with
  | [] => [k]
  | x :: rest => if String.leb k x then k :: sorted else x :: insertSorted k rest
  end.

Definition sort (names : list string) : list string := fold_right insertSorted [] names.

(** Each name comes strictly before the next one. *)
Fixpoint ascending (names : list string) : bool :=
  match names with
  | a :: (b :: _) as rest => String.ltb a b && ascending rest
  | _ => true
  end.

(** [TcpClient.getBuiltinFunctions()]. *)
Definition getBuiltinFunctions : list string :=
  sort (List.filter (fun k => negb (includes builtinFunctionReservedNames k))
                    (map fst builtinFunctionMap)).

(** [TcpClient.isNullStep(step)]. *)
Definition isNullStep (step : CustomStep.t) : bool := _isNullStep step.

(** *** The older client (src/TcpClient.js): socket lifecycle *)

Module LegacyClient.

(** The functions that the caller passes in, known by a token. *)
Definition Callback := nat.

Record Options := mkOptions {
  host : string;
  tcpPort : option Z;
  sendImmediately : option bool }.

Inductive Effect :=
| SocketNew
| SocketSetNoDelay (noDelay : bool)
| SocketPause
| SocketResume
| SocketUnref
| SocketDestroy
| SocketEnd
| SocketConnect (host : string) (port : Z) (localPort : option Z)
| SocketWrite (buffer : Buffer)
| EmitTcpDead (error : option Error)
| Invoke (callback : Callback).

(** What the client holds of its socket: whether reading is paused, the
    callback given to [socket.connect], and the callbacks of the pending
    writes, oldest first. *)
Record Socket := mkSocket {
  paused : bool;
  connectListener : option Callback;
  pendingWrites : list (option Callback) }.

Record t := mk {
  _options : Options;
  _dead : bool;
  _statusArray : Buffer;
  _statusIndex : nat;
  _socket : Socket;
  _error : option Error;
  _statusCallback : option Callback }.

Definition Step := (t * list Effect)%type.

Definition andThen (s : Step) (g : t -> Step) : Step :=
  let '(c, es) := s in
  let '(c', es') := g c in
  (c', es ++ es').

(** [this._options.sendImmediately || true]: whatever the option, the
    outcome is [true]. *)
Definition orTrue (o : option bool) : bool :=
  match o with
  | Some true => true
  | _ => true
  end.

(** [_createSocket]; the error listener it installs is [onError] below.
    [_statusCallback] is not assigned. *)
Definition _createSocket (c : t) : Step :=
  (mk (_options c) false (alloc statusResponseSize) 0 (mkSocket true None []) None
      (_statusCallback c),
   [SocketNew; SocketSetNoDelay (orTrue (sendImmediately (_options c))); SocketPause]).

(** [connect(callback)]. *)
Definition connect (callback : option Callback) (c : t) : Step :=
  if _dead c then (c, [])
  else
    let localPort :=
      match tcpPort (_options c) with
      | Some p => if 0 <? p then Some p else None
      | None => None
      end in
    let s := _socket c in
    (mk (_options c) (_dead c) (_statusArray c) (_statusIndex c)
        (mkSocket (paused s) callback (pendingWrites s)) (_error c) (_statusCallback c),
     [SocketConnect (host (_options c)) 5577 localPort]).

(** [_closeSocket]. *)
Definition _closeSocket (c : t) : Step :=
  let reconnect := negb (_dead c) in
  let err : option Error := None in
  let '(reconnect, err) :=
    if reconnect
    then let err := _error c in
         ((match err with Some _ => false | None => reconnect end), err)
    else (reconnect, err) in
  if reconnect
  then andThen (andThen (c, [SocketUnref; SocketDestroy]) _createSocket) (connect None)
  else
    (mk (_options c) true (_statusArray c) (_statusIndex c) (_socket c) (_error c)
        (_statusCallback c),
     [SocketUnref; SocketDestroy; EmitTcpDead (_error c)]).

(** The 'error' listener. *)
Definition onError (err : Error) (c : t) : Step :=
  (mk (_options c) (_dead c) (_statusArray c) (_statusIndex c) (_socket c) (Some err)
      (_statusCallback c), []).

(** The socket calls the callback of [socket.connect]. *)
Definition connected (c : t) : Step :=
  match connectListener (_socket c) with
  | Some cb => (c, [Invoke cb])
  | None => (c, [])
  end.

(** [disconnect()]. *)
Definition disconnect (c : t) : Step :=
  if _dead c then (c, [])
  else
    andThen
      (mk (_options c) true (_statusArray c) (_statusIndex c) (_socket c) (_error c)
          (_statusCallback c), [SocketEnd])
      _closeSocket.

(** [_write(buffer, callback)]. *)
Definition _write (buffer : Buffer) (callback : option Callback) (c : t) : Step :=
  let s := _socket c in
  (mk (_options c) (_dead c) (_statusArray c) (_statusIndex c)
      (mkSocket (paused s) (connectListener s) (pendingWrites s ++ [callback]))
      (_error c) (_statusCallback c),
   [SocketWrite buffer]).

(** [status(callback)]. *)
Definition status (callback : Callback) (c : t) : Step :=
  if _dead c then (c, [])
  else
    let s := _socket c in
    (mk (_options c) (_dead c) (_statusArray c) (_statusIndex c)
        (mkSocket false (connectListener s) (pendingWrites s ++ [None]))
        (_error c) (Some callback),
     [SocketResume; SocketWrite statusRequest]).

Section Power.

(** [TcpPower.on()] and [TcpPower.off()]: buffers of a file that is not
    among the sources at hand. *)
Variables powerOnBuffer powerOffBuffer : Buffer.

Definition on (callback : option Callback) (c : t) : Step :=
  if _dead c then (c, []) else _write powerOnBuffer callback c.

Definition off (callback : option Callback) (c : t) : Step :=
  if _dead c then (c, []) else _write powerOffBuffer callback c.

(** The completion of the oldest pending write. *)
Definition written (c : t) : Step :=
  let s := _socket c in
  match pendingWrites s with
  | [] => (c, [])
  | k :: rest =>
      let c := mk (_options c) (_dead c) (_statusArray c) (_statusIndex c)
                  (mkSocket (paused s) (connectListener s) rest) (_error c)
                  (_statusCallback c) in
      match k with
      | Some cb => (c, [Invoke cb])
      | None => (c, [])
      end
  end.

(** [new TcpClient(ufo, options)]. *)
Definition new (options : Options) : Step :=
  _createSocket (mk options false [] 0 (mkSocket true None []) None None).

Inductive Action :=
| CallConnect (callback : option Callback)
| CallDisconnect
| CallStatus (callback : Callback)
| CallOn (callback : option Callback)
| CallOff (callback : option Callback)
| EvConnected
| EvError (err : Error)
| EvClose
| EvWritten.

Definition step (a : Action) (c : t) : Step :=
  match a with
  | CallConnect cb => connect cb c
  | CallDisconnect => disconnect c
  | CallStatus cb => status cb c
  | CallOn cb => on cb c
  | CallOff cb => off cb c
  | EvConnected => connected c
  | EvError err => onError err c
  | EvClose => _closeSocket c
  | EvWritten => written c
  end.

Fixpoint run (actions : list Action) (c : t) : Step :=
  match actions with
  | [] => (c, [])
  | a :: rest => andThen (step a c) (run rest)
  end.

End Power.

End LegacyClient.

(** *** Vocabulary for the further properties *)

(** The last byte of a frame is the sum of the others modulo 256, as the
    decoder computes it. *)
Definition checksumOk (frame : Buffer) : Prop :=
  readUInt8 frame (statusResponseSize - 1)
  = sumBytes (writeUInt8 0 (statusResponseSize - 1) frame) mod 0x100.

Module Coverage.
Import TcpClient.

(** The buffers handed to [socket.write] in a step. *)
Definition writtenBuffers (es : list Effect) : list Buffer :=
  flat_map (fun e => match e with SocketWrite b => [b] | _ => [] end) es.

(** A buffer ends in the checksum of the bytes before it. *)
Definition endsInChecksum (buf : Buffer) : Prop :=
  exists body cs, buf = body ++ [cs] /\ cs = sumBytes body mod 0x100.

(** The reassembly storage is the 14-byte array, and the offset is inside
    it. *)
Definition reassemblyOk (c : t) : Prop :=
  length (_statusArray c) = statusResponseSize
  /\ (_statusIndex c < statusResponseSize)%nat.

(** Reading is resumed only while a status request is outstanding. *)
Definition readingImpliesRequest (c : t) : Prop :=
  paused (_socket c) = false -> is_Some (_statusCallback c).

(** Both together. *)
Definition clientInvariant (c : t) : Prop :=
  reassemblyOk c /\ readingImpliesRequest c.

(** The calls of public methods, as opposed to socket events. *)
Definition isControlCall (a : Action) : bool :=
  match a with
  | CallStatus _ | CallOn | CallOff | CallRgbw _ _ _ _
  | CallBuiltin _ _ | CallCustom _ _ _ => true
  | _ => false
  end.

End Coverage.

(** The step that a custom command carries at place [i]: the three colour
    bytes of the i-th group of four behind the command byte 0x51. *)
Definition wireStep (buf : Buffer) (i : nat) : CustomStep.t :=
  CustomStep.mk (readUInt8 buf (1 + 4 * i)) (readUInt8 buf (2 + 4 * i))
                (readUInt8 buf (3 + 4 * i)).

(** The sixteen steps of a custom command, read off the bytes written. *)
Definition wireSteps (buf : Buffer) : list CustomStep.t :=
  map (wireStep buf) (seq 0 maxCustomSteps).

(** A step with each colour clamped as [custom] clamps it on writing. *)
Definition clampStep (step : CustomStep.t) : CustomStep.t :=
  CustomStep.mk (_clampRGBW (CustomStep.red step)) (_clampRGBW (CustomStep.green step))
                (_clampRGBW (CustomStep.blue step)).

(** All three colours of a step are bytes. *)
Definition byteStep (step : CustomStep.t) : Prop :=
  0 <= CustomStep.red step <= 255 /\ 0 <= CustomStep.green step <= 255
  /\ 0 <= CustomStep.blue step <= 255.

(* ===================================================================== *)
(** * Properties *)
(* ===================================================================== *)

Arguments _customFlipSpeed : simpl never.
Arguments _builtinFlipSpeed : simpl never.
Arguments readUInt8 : simpl never.
Arguments sumBytes : simpl never.
Arguments _prepareBytes : simpl never.
Arguments customBuffer : simpl never.
Arguments decodeStatus : simpl never.
Arguments mapGet : simpl never.
Arguments customModeId : simpl never.

(* ===================================================================== *)
(** ** The frame codec *)
(* ===================================================================== *)

Lemma fold_left_add_acc (l : list Z) (a : Z) :
  fold_left Z.add l a = a + fold_left Z.add l 0.
Proof.
  revert a; induction l as [|x l IH]; intros a; cbn [fold_left]; [lia|].
  rewrite (IH (a + x)), (IH (0 + x)). lia.
Qed.

Lemma sumBytes_app (a b : Buffer) : sumBytes (a ++ b) = sumBytes a + sumBytes b.
Proof.
  unfold sumBytes. rewrite fold_left_app.
  rewrite fold_left_add_acc. reflexivity.
Qed.

Lemma copy_alloc (buf : Buffer) (n : nat) :
  copy buf (alloc (length buf + n)) = buf ++ alloc n.
Proof.
  unfold copy, alloc.
  rewrite length_replicate, take_ge by lia.
  rewrite drop_replicate. f_equal. f_equal. lia.
Qed.

(** The encoder in closed form: the payload, the flag, and the sum of the
    payload and the flag modulo 256. Both offsets it writes to are inside
    the new buffer. *)
Lemma prepareBytes_eq (buf : Buffer) :
  _prepareBytes buf = buf ++ [0x0f; (sumBytes buf + 0x0f) mod 0x100].
Proof.
  unfold _prepareBytes, writeUInt8. cbv zeta.
  rewrite copy_alloc. cbn [alloc replicate].
  rewrite !length_insert, !length_app. cbn [length].
  replace (length buf + 2 - 2)%nat with (length buf + 0)%nat by lia.
  replace (length buf + 2 - 1)%nat with (length buf + 1)%nat by lia.
  rewrite !insert_app_r. cbn [list_insert insert].
  rewrite sumBytes_app.
  reflexivity.
Qed.

Lemma prepareBytes_length (buf : Buffer) :
  length (_prepareBytes buf) = (length buf + 2)%nat.
Proof. rewrite prepareBytes_eq, length_app. reflexivity. Qed.

Lemma prepareBytes_checksum_is_byte (buf : Buffer) :
  is_byte (readUInt8 (_prepareBytes buf) (length buf + 1)).
Proof.
  rewrite prepareBytes_eq. unfold readUInt8, is_byte.
  rewrite lookup_app_r by lia.
  replace (length buf + 1 - length buf)%nat with 1%nat by lia.
  cbn [lookup list_lookup default]. apply Z.mod_pos_bound. lia.
Qed.

Lemma readUInt8_app_l (a b : Buffer) (i : nat) :
  (i < length a)%nat -> readUInt8 (a ++ b) i = readUInt8 a i.
Proof. intros H. unfold readUInt8. rewrite lookup_app_l by exact H. reflexivity. Qed.

Lemma readUInt8_app_r (a b : Buffer) (i : nat) :
  readUInt8 (a ++ b) (length a + i) = readUInt8 b i.
Proof. unfold readUInt8. rewrite lookup_app_r by lia. f_equal. f_equal. lia. Qed.

(** On an encoded 12-byte payload the decoder recomputes the very checksum
    it finds in the last byte. *)
Lemma checksum_of_prepared (payload : Buffer) :
  length payload = 12%nat ->
  let frame := _prepareBytes payload in
  let lastIndex := (statusResponseSize - 1)%nat in
  readUInt8 frame lastIndex = sumBytes (writeUInt8 0 lastIndex frame) mod 0x100.
Proof.
  intros Hlen. cbv zeta. rewrite prepareBytes_eq.
  change (statusResponseSize - 1)%nat with (12 + 1)%nat.
  rewrite <- Hlen. rewrite readUInt8_app_r.
  unfold writeUInt8. rewrite insert_app_r.
  cbn [list_insert insert]. rewrite sumBytes_app.
  reflexivity.
Qed.

(** C2, as amended. For a 12-byte payload that starts with the status header
    0x81, whose byte 2 is a power value and whose byte 3 is a mode value,
    decoding the output of the command encoder succeeds: the checksum test
    passes, the raw frame of the result is the encoder's output, its first
    twelve bytes are the payload unchanged, and the colour fields are bytes
    6 to 9 of the payload. *)
Theorem decode_prepareBytes_roundtrip (payload : Buffer) :
  length payload = 12%nat ->
  readUInt8 payload 0 = statusHeader ->
  is_Some (powerOfByte (readUInt8 payload 2)) ->
  is_Some (modeOfByte (readUInt8 payload 3)) ->
  exists status,
    decodeStatus (_prepareBytes payload) = (None, Some status)
    /\ UfoStatus.raw status = _prepareBytes payload
    /\ take (length payload) (UfoStatus.raw status) = payload
    /\ UfoStatus.red status = readUInt8 payload 6
    /\ UfoStatus.green status = readUInt8 payload 7
    /\ UfoStatus.blue status = readUInt8 payload 8
    /\ UfoStatus.white status = readUInt8 payload 9.
Proof.
  intros Hlen Hhead [on Hon] [m Hm].
  pose proof (checksum_of_prepared payload Hlen) as Hsum. cbv zeta in Hsum.
  assert (Hread : forall i, (i < 12)%nat ->
            readUInt8 (_prepareBytes payload) i = readUInt8 payload i).
  { intros i Hi. rewrite prepareBytes_eq. apply readUInt8_app_l. lia. }
  unfold decodeStatus.
  rewrite <- Hsum, Z.eqb_refl.
  rewrite !Hread by lia.
  rewrite Hhead, Z.eqb_refl, Hon, Hm. cbn [negb].
  eexists. split; [reflexivity|].
  assert (Htake : take (length payload) (_prepareBytes payload) = payload).
  { rewrite prepareBytes_eq. rewrite take_app_length. reflexivity. }
  destruct (String.eqb _ _), (startsWith _ _); cbn; auto 10.
Qed.

Lemma decode_prepareBytes_roundtrip_witness :
  length Samples.samplePayload = 12%nat
  /\ readUInt8 Samples.samplePayload 0 = statusHeader
  /\ exists status,
       decodeStatus (_prepareBytes Samples.samplePayload) = (None, Some status)
       /\ UfoStatus.raw status = _prepareBytes Samples.samplePayload
       /\ take (length Samples.samplePayload) (UfoStatus.raw status) = Samples.samplePayload
       /\ UfoStatus.red status = readUInt8 Samples.samplePayload 6
       /\ UfoStatus.green status = readUInt8 Samples.samplePayload 7
       /\ UfoStatus.blue status = readUInt8 Samples.samplePayload 8
       /\ UfoStatus.white status = readUInt8 Samples.samplePayload 9.
Proof.
  split; [reflexivity|]. split; [reflexivity|].
  apply (decode_prepareBytes_roundtrip Samples.samplePayload);
    [reflexivity | reflexivity | exists true; reflexivity | exists "static"%string; reflexivity].
Defined.

(** C2, as stated, fails: the payload of [rgbw(10, 20, 30, 40)], run through
    the encoder, is not a frame the decoder accepts. The result is the
    header error and no status. *)
Lemma decode_prepareBytes_counterexample :
  decodeStatus (_prepareBytes Samples.rgbwPayload) = (Some HeaderMismatch, None)
  /\ ~ (exists status,
          decodeStatus (_prepareBytes Samples.rgbwPayload) = (None, Some status)).
Proof.
  assert (E : decodeStatus (_prepareBytes Samples.rgbwPayload) = (Some HeaderMismatch, None))
    by (vm_compute; reflexivity).
  split; [exact E|]. intros [status H]. rewrite E in H. discriminate H.
Qed.

(** The decoder accepts the encoding of a 12-byte payload only if the
    payload passes the three checks on its own bytes. *)
Lemma decode_prepareBytes_only_if (payload : Buffer) :
  length payload = 12%nat ->
  fst (decodeStatus (_prepareBytes payload)) = None ->
  readUInt8 payload 0 = statusHeader
  /\ is_Some (powerOfByte (readUInt8 payload 2))
  /\ is_Some (modeOfByte (readUInt8 payload 3)).
Proof.
  intros Hlen.
  assert (Hread : forall i, (i < 12)%nat ->
            readUInt8 (_prepareBytes payload) i = readUInt8 payload i).
  { intros i Hi. rewrite prepareBytes_eq. apply readUInt8_app_l. lia. }
  unfold decodeStatus.
  rewrite (Hread 0%nat), (Hread 2%nat), (Hread 3%nat) by lia.
  destruct (readUInt8 payload 0 =? statusHeader) eqn:Hh; [|discriminate].
  destruct (negb _); [discriminate|].
  destruct (powerOfByte (readUInt8 payload 2)) as [on|] eqn:Hon; [|discriminate].
  destruct (modeOfByte (readUInt8 payload 3)) as [m|] eqn:Hm; [|discriminate].
  intros _. apply Z.eqb_eq in Hh.
  split; [exact Hh|]. split; eexists; reflexivity.
Qed.

Lemma modeOfByte_cases (b : Z) (m : string) :
  modeOfByte b = Some m ->
  m = "other"%string \/ m = "static"%string \/ m = "custom"%string \/
  exists name, m = ("function:" ++ name)%string.
Proof.
  unfold modeOfByte.
  repeat (case (_ =? _); [intros [= <-]; tauto|]).
  destruct (nameOfId _ _) as [name|]; [|discriminate].
  intros [= <-]. right; right; right. exists name. reflexivity.
Qed.

(** C9. In every status that the decoder accepts, the speed is defined
    exactly when the mode is "custom" or starts with "function:"; it is
    absent for "static" and "other"; for "custom" it is the custom flip of
    byte 5 minus 1, and for a function mode the built-in flip of byte 5. *)
Theorem decodeStatus_speed (frame : Buffer) (status : UfoStatus.t) :
  snd (decodeStatus frame) = Some status ->
  let m := UfoStatus.mode status in
  let speed := readUInt8 frame 5 in
  (is_Some (UfoStatus.speed status) <-> m = "custom"%string \/ startsWith m "function:" = true)
  /\ (m = "static"%string \/ m = "other"%string -> UfoStatus.speed status = None)
  /\ (m = "custom"%string -> UfoStatus.speed status = Some (_customFlipSpeed (speed - 1)))
  /\ (startsWith m "function:" = true -> UfoStatus.speed status = Some (_builtinFlipSpeed speed)).
Proof.
  unfold decodeStatus.
  destruct (readUInt8 frame 0 =? statusHeader); [|discriminate].
  destruct (negb _); [discriminate|].
  destruct (powerOfByte _) as [on|]; [|discriminate].
  destruct (modeOfByte _) as [m|] eqn:Hm; [|discriminate].
  apply modeOfByte_cases in Hm.
  destruct Hm as [-> | [-> | [-> | [name ->]]]]; cbn; intros [= <-]; cbn.
  all: repeat split; intros; try discriminate; try reflexivity; eauto.
  all: repeat match goal with
         | H : _ \/ _ |- _ => destruct H
         | H : is_Some None |- _ => destruct H as [? [=]]
         end; try discriminate.
  right. destruct name; reflexivity.
Qed.

Lemma decodeStatus_speed_witness :
  exists status,
    snd (decodeStatus Samples.customFrame) = Some status
    /\ UfoStatus.mode status = "custom"%string
    /\ UfoStatus.speed status = Some 20.
Proof.
  destruct (decodeStatus Samples.customFrame) as [err [status|]] eqn:E;
    [|vm_compute in E; discriminate E].
  exists status. split; [reflexivity|].
  assert (Hm : UfoStatus.mode status = "custom"%string).
  { vm_compute in E. injection E as _ <-. reflexivity. }
  split; [exact Hm|].
  assert (Hs : snd (decodeStatus Samples.customFrame) = Some status)
    by (rewrite E; reflexivity).
  destruct (decodeStatus_speed Samples.customFrame status Hs) as (_ & _ & Hcustom & _).
  rewrite (Hcustom Hm). reflexivity.
Defined.

(* ===================================================================== *)
(** ** Normalisation of the custom steps *)
(* ===================================================================== *)

Lemma isNullStep_iff (s : CustomStep.t) : _isNullStep s = true <-> s = nullStep.
Proof.
  destruct s as [r g b]. unfold _isNullStep, nullStep. cbn.
  rewrite !andb_true_iff, !Z.eqb_eq. split.
  - intros [[-> ->] ->]. reflexivity.
  - intros [= -> -> ->]. auto.
Qed.

Lemma padSteps_eq (l : list CustomStep.t) :
  padSteps l = l ++ replicate (maxCustomSteps - length l) nullStep.
Proof.
  funelim (padSteps l).
  - rewrite H. rewrite length_app. cbn [length].
    rewrite <- app_assoc. f_equal. cbn [app].
    change (nullStep :: replicate ?n nullStep) with (replicate (S n) nullStep).
    f_equal. lia.
  - match goal with |- _ = ?x ++ _ =>
      replace (maxCustomSteps - length x)%nat with 0%nat by lia end.
    cbn. rewrite app_nil_r. reflexivity.
Qed.

Lemma legacy_padSteps_eq (l : list CustomStep.t) :
  Legacy.padSteps l = l ++ replicate (Legacy.getStepCount - length l) Legacy.getNullStep.
Proof.
  funelim (Legacy.padSteps l).
  - rewrite H. rewrite length_app. cbn [length].
    rewrite <- app_assoc. f_equal. cbn [app].
    change (Legacy.getNullStep :: replicate ?n Legacy.getNullStep)
      with (replicate (S n) Legacy.getNullStep).
    f_equal. lia.
  - match goal with |- _ = ?x ++ _ =>
      replace (Legacy.getStepCount - length x)%nat with 0%nat by lia end.
    cbn. rewrite app_nil_r. reflexivity.
Qed.

Lemma filter_nonNull_idem (l : list CustomStep.t) :
  List.filter (fun s => negb (_isNullStep s)) (List.filter (fun s => negb (_isNullStep s)) l)
  = List.filter (fun s => negb (_isNullStep s)) l.
Proof.
  induction l as [|x l IH]; cbn; [reflexivity|].
  destruct (negb (_isNullStep x)) eqn:E; cbn; rewrite ?E, IH; reflexivity.
Qed.

Lemma filter_all (f : CustomStep.t -> bool) (l : list CustomStep.t) :
  Forall (fun s => f s = true) l -> List.filter f l = l.
Proof.
  induction 1 as [|x l Hx _ IH]; cbn; [reflexivity|]. rewrite Hx, IH. reflexivity.
Qed.

Lemma filter_none (f : CustomStep.t -> bool) (l : list CustomStep.t) :
  Forall (fun s => f s = false) l -> List.filter f l = [].
Proof.
  induction 1 as [|x l Hx _ IH]; cbn; [reflexivity|]. rewrite Hx, IH. reflexivity.
Qed.

Lemma filter_nonNull_Forall (l : list CustomStep.t) :
  Forall (fun s => negb (_isNullStep s) = true) (List.filter (fun s => negb (_isNullStep s)) l).
Proof.
  induction l as [|x l IH]; cbn; [constructor|].
  destruct (negb (_isNullStep x)) eqn:E; [constructor; assumption | assumption].
Qed.

Lemma filter_sublist (f : CustomStep.t -> bool) (l : list CustomStep.t) :
  sublist (List.filter f l) l.
Proof.
  induction l as [|x l IH]; cbn; [constructor|].
  destruct (f x); [apply sublist_skip | apply sublist_cons]; assumption.
Qed.

Lemma clamp_max_min (number lower upper : Z) :
  clamp number lower upper = Z.max (Z.min number upper) lower.
Proof.
  unfold clamp. rewrite Z.geb_leb.
  destruct (Z.leb_spec number upper);
    match goal with |- context [?a <=? ?b] => destruct (Z.leb_spec a b) end; lia.
Qed.

(** On the wire, too, only the null step reads 1, 2, 3: clamping maps no
    other step to these bytes. *)
Lemma stepBytes_null_iff (s : CustomStep.t) :
  stepBytes s = stepBytes nullStep <-> s = nullStep.
Proof.
  split; [|intros ->; reflexivity].
  destruct s as [r g b]. unfold stepBytes, nullStep, _clampRGBW. cbn [CustomStep.red
    CustomStep.green CustomStep.blue].
  rewrite !clamp_max_min. intros [= Hr Hg Hb]. f_equal; lia.
Qed.

Lemma customBuffer_length (modeId speed : Z) (steps : list CustomStep.t) :
  length (stepsCopy steps) = 16%nat ->
  length (customBuffer modeId speed steps) = 68%nat.
Proof.
  intros H. unfold customBuffer.
  rewrite !length_app. cbn [length].
  assert (E : forall l : list CustomStep.t,
            length (concat (map stepBytes l)) = (4 * length l)%nat).
  { induction l as [|x l IH]; [reflexivity|].
    cbn [map concat]. rewrite length_app, IH. cbn [length stepBytes]. lia. }
  rewrite E, H. reflexivity.
Qed.

(** Clamping maps no other step to the null step. *)
Lemma clampStep_null_iff (s : CustomStep.t) : clampStep s = nullStep <-> s = nullStep.
Proof.
  split; [|intros ->; reflexivity].
  destruct s as [r g b]. unfold clampStep, nullStep, _clampRGBW.
  cbn [CustomStep.red CustomStep.green CustomStep.blue].
  rewrite !clamp_max_min. intros [= Hr Hg Hb]. f_equal; lia.
Qed.

Lemma clampStep_byteStep (s : CustomStep.t) : byteStep s -> clampStep s = s.
Proof.
  destruct s as [r g b]. unfold byteStep, clampStep, _clampRGBW.
  cbn [CustomStep.red CustomStep.green CustomStep.blue]. intros (Hr & Hg & Hb).
  rewrite !clamp_max_min. f_equal; lia.
Qed.

Lemma isNullStep_clampStep (s : CustomStep.t) : _isNullStep (clampStep s) = _isNullStep s.
Proof.
  destruct (_isNullStep s) eqn:E.
  - apply isNullStep_iff in E. subst s. reflexivity.
  - destruct (_isNullStep (clampStep s)) eqn:E'; [|reflexivity].
    apply (proj1 (isNullStep_iff _)) in E'. apply (proj1 (clampStep_null_iff s)) in E'.
    subst s. discriminate E.
Qed.

(** In the step area of the command, the i-th group of four bytes holds
    the clamped colours of the i-th step of the list. *)
Lemma stepBytes_at (l : list CustomStep.t) (rest : Buffer) (i : nat) (s : CustomStep.t) :
  l !! i = Some s ->
  let body := concat (map stepBytes l) ++ rest in
  CustomStep.mk (readUInt8 body (4 * i)) (readUInt8 body (S (4 * i)))
                (readUInt8 body (S (S (4 * i)))) = clampStep s.
Proof.
  revert i. induction l as [|a l IH]; intros i Hi; [discriminate Hi|].
  destruct i as [|i].
  - injection Hi as ->. reflexivity.
  - cbn [lookup list_lookup] in Hi. specialize (IH i Hi). cbv zeta in *.
    replace (4 * S i)%nat with (S (S (S (S (4 * i))))) by lia.
    exact IH.
Qed.

Lemma wireStep_steps (l : list CustomStep.t) (rest : Buffer) (i : nat) (s : CustomStep.t) :
  l !! i = Some s ->
  wireStep ([0x51] ++ concat (map stepBytes l) ++ rest) i = clampStep s.
Proof.
  intros Hi. rewrite <- (stepBytes_at l rest i s Hi). reflexivity.
Qed.

Lemma wireSteps_prepared (modeId speed : Z) (steps : list CustomStep.t) :
  length (stepsCopy steps) = maxCustomSteps ->
  wireSteps (_prepareBytes (customBuffer modeId speed steps)) = map clampStep (stepsCopy steps).
Proof.
  intros Hlen. rewrite prepareBytes_eq. unfold customBuffer, wireSteps.
  rewrite <- !app_assoc.
  apply list_eq. intros i. rewrite !list_lookup_fmap.
  destruct (stepsCopy steps !! i) as [s|] eqn:E.
  - assert (Hi : (i < maxCustomSteps)%nat) by (rewrite <- Hlen; eapply lookup_lt_Some, E).
    rewrite lookup_seq_lt by exact Hi. cbn [fmap option_fmap option_map Nat.add].
    f_equal. apply wireStep_steps, E.
  - apply lookup_ge_None in E. rewrite Hlen in E.
    rewrite lookup_seq_ge by exact E. reflexivity.
Qed.

(** C4. On a live client and with a valid mode, [custom] hands one buffer
    to the socket, and the sixteen steps this buffer carries are the
    caller's list without the null steps, cut to 16, then filled up with
    null steps, each colour clamped to a byte (so they are that very list
    when the colours are bytes). On the wire there is no null step before
    position min(16, number of non-null input steps) and there are only
    null steps from there on, and the steps before that position are the
    first 16 non-null steps of the input in their original order. The
    older client computes the same list. *)
Theorem custom_writes_normalized_steps
    (mode : string) (modeId speed : Z) (steps : list CustomStep.t) (c : TcpClient.t) :
  TcpClient._dead c = false -> customModeId mode = Some modeId ->
  let nonNull := List.filter (fun s => negb (_isNullStep s)) steps in
  let kept := take maxCustomSteps nonNull in
  let normalized := kept ++ replicate (maxCustomSteps - length kept) nullStep in
  (forall s, _isNullStep s = true <-> s = nullStep)
  /\ stepsCopy steps = normalized
  /\ Legacy.stepsCopy steps = normalized
  /\ length normalized = 16%nat
  /\ length kept = Nat.min 16 (length nonNull)
  /\ sublist kept steps
  /\ exists wire,
       Coverage.writtenBuffers (snd (TcpClient.custom mode speed steps c)) = [wire]
       /\ length wire = 70%nat
       /\ wireSteps wire = map clampStep normalized
       /\ (Forall byteStep steps -> wireSteps wire = normalized)
       /\ length (wireSteps wire) = 16%nat
       /\ (forall i s, (i < Nat.min 16 (length nonNull))%nat ->
             wireSteps wire !! i = Some s -> s <> nullStep)
       /\ (forall i, (Nat.min 16 (length nonNull) <= i < 16)%nat ->
             wireSteps wire !! i = Some nullStep)
       /\ List.filter (fun s => negb (_isNullStep s)) (wireSteps wire) = map clampStep kept.
Proof.
  intros Hdead Hmode nonNull kept normalized.
  assert (Hlen : length kept = Nat.min 16 (length nonNull)).
  { unfold kept. rewrite length_take. reflexivity. }
  assert (Hkept : Forall (fun s => negb (_isNullStep s) = true) kept).
  { unfold kept. apply Forall_take, filter_nonNull_Forall. }
  assert (Heq : stepsCopy steps = normalized).
  { unfold stepsCopy. rewrite padSteps_eq. reflexivity. }
  assert (Hn : length normalized = 16%nat).
  { unfold normalized. rewrite length_app, length_replicate, Hlen. unfold maxCustomSteps. lia. }
  assert (Hsub : sublist kept steps).
  { unfold kept. etransitivity; [apply sublist_take|]. apply filter_sublist. }
  split; [exact isNullStep_iff|].
  split; [exact Heq|].
  split.
  { unfold Legacy.stepsCopy. cbv zeta. rewrite legacy_padSteps_eq. reflexivity. }
  split; [exact Hn|]. split; [exact Hlen|]. split; [exact Hsub|].
  exists (_prepareBytes (customBuffer modeId speed steps)).
  assert (Hwire : wireSteps (_prepareBytes (customBuffer modeId speed steps))
                  = map clampStep normalized).
  { rewrite wireSteps_prepared by (rewrite Heq; exact Hn). rewrite Heq. reflexivity. }
  split.
  { unfold TcpClient.custom. rewrite Hdead, Hmode. reflexivity. }
  split.
  { rewrite prepareBytes_length, customBuffer_length by (rewrite Heq; exact Hn). reflexivity. }
  split; [exact Hwire|].
  split.
  { intros Hbytes. rewrite Hwire.
    assert (Hall : Forall byteStep normalized).
    { unfold normalized. apply Forall_app. split.
      - rewrite Forall_forall in Hbytes |- *. intros s Hs.
        apply Hbytes. eapply elem_of_sublist; [exact Hs | exact Hsub].
      - apply Forall_replicate. unfold byteStep, nullStep. cbn. lia. }
    clear -Hall. induction Hall as [|s l Hs _ IH]; [reflexivity|].
    cbn [map]. rewrite (clampStep_byteStep s Hs), IH. reflexivity. }
  assert (Hpad : forall n, map clampStep (replicate n nullStep) = replicate n nullStep).
  { induction n as [|n IH]; [reflexivity|]. cbn [replicate map]. rewrite IH. reflexivity. }
  rewrite Hwire. unfold normalized. rewrite map_app, Hpad.
  split; [rewrite length_app, length_map, length_replicate, Hlen; unfold maxCustomSteps; lia|].
  split.
  { intros i s Hi Hs Hnull.
    rewrite lookup_app_l in Hs by (rewrite length_map; lia).
    rewrite list_lookup_fmap in Hs.
    destruct (kept !! i) as [s0|] eqn:E; [|discriminate Hs].
    injection Hs as <-. apply (proj1 (clampStep_null_iff s0)) in Hnull. subst s0.
    rewrite Forall_lookup in Hkept. specialize (Hkept i nullStep E). discriminate Hkept. }
  split.
  { intros i Hi. rewrite lookup_app_r by (rewrite length_map; lia).
    apply lookup_replicate_2. rewrite length_map. unfold maxCustomSteps. lia. }
  rewrite List.filter_app.
  rewrite (filter_none _ (replicate _ _)) by (apply Forall_replicate; reflexivity).
  rewrite app_nil_r. apply filter_all.
  clear -Hkept. induction Hkept as [|s l Hs _ IH]; [constructor|].
  cbn [map]. constructor; [rewrite isNullStep_clampStep; exact Hs | exact IH].
Qed.

Lemma custom_writes_normalized_steps_witness :
  TcpClient._dead Samples.liveClient = false
  /\ exists wire,
       Coverage.writtenBuffers
         (snd (TcpClient.custom "jumping" 10 Samples.someSteps Samples.liveClient)) = [wire]
       /\ wireSteps wire
          = [CustomStep.mk 255 0 0; CustomStep.mk 0 255 0] ++ replicate 14 nullStep
       /\ wireSteps wire !! 1%nat = Some (CustomStep.mk 0 255 0)
       /\ wireSteps wire !! 2%nat = Some nullStep.
Proof.
  split; [reflexivity|].
  destruct (custom_writes_normalized_steps "jumping" 0x3B 10 Samples.someSteps
              Samples.liveClient eq_refl eq_refl)
    as (_ & _ & _ & _ & _ & _ & wire & Hw & _ & Hsteps & _ & _ & _ & Hback & _).
  exists wire. split; [exact Hw|].
  split; [rewrite Hsteps; reflexivity|].
  split; [rewrite Hsteps; reflexivity|].
  apply (Hback 2%nat). vm_compute. lia.
Defined.

(* ===================================================================== *)
(** ** The TCP client: lifecycle and status cache *)
(* ===================================================================== *)

Module TcpFacts.
Import TcpClient Lifecycle.

Lemma andThen_fst (s : Step) (g : t -> Step) :
  fst (s >>> g) = fst (g (fst s)).
Proof. destruct s as [c es]. cbn. destruct (g c). reflexivity. Qed.

Lemma andThen_snd (s : Step) (g : t -> Step) :
  snd (s >>> g) = snd s ++ snd (g (fst s)).
Proof. destruct s as [c es]. cbn. destruct (g c). reflexivity. Qed.

Lemma connects_app (es es' : list Effect) :
  connects (es ++ es') = connects es ++ connects es'.
Proof. apply List.filter_app. Qed.

(** *** Dead is terminal *)

Lemma statusCallback_dead p err data c :
  _dead (fst (statusCallback p err data c)) = _dead c.
Proof. destruct err; reflexivity. Qed.

Lemma writeCallback_dead k c : _dead (fst (writeCallback k c)) = _dead c.
Proof.
  destruct c as [o d cf dc sa si [s|] so e sc]; destruct k; reflexivity.
Qed.

Lemma socketError_dead err c : _dead (fst (socketError err c)) = _dead c.
Proof.
  unfold socketError. destruct (errorListeners (_socket c)) as [|l ls] eqn:E; [reflexivity|].
  clear E. generalize (l :: ls). clear l ls. intros ls.
  change (_dead c) with (_dead (fst (pure c))). generalize (pure c). 
  induction ls as [|l ls IH]; intros s; cbn [fold_left]; [reflexivity|].
  rewrite IH, andThen_fst. destruct l; reflexivity.
Qed.

Lemma step_dead a c : _dead c = true -> _dead (fst (step a c)) = true.
Proof.
  intros Hd. destruct a; cbn [step].
  - unfold connect. rewrite Hd. exact Hd.
  - unfold disconnect. rewrite Hd. exact Hd.
  - unfold status, statusAs. rewrite Hd. exact Hd.
  - unfold on. rewrite Hd. exact Hd.
  - unfold off. rewrite Hd. exact Hd.
  - unfold rgbw. rewrite Hd. exact Hd.
  - unfold builtin. rewrite Hd. exact Hd.
  - unfold custom. rewrite Hd. exact Hd.
  - unfold connected. destruct (cache _); [|exact Hd].
    unfold statusAs. cbn. rewrite Hd. exact Hd.
  - rewrite socketError_dead. exact Hd.
  - unfold _closeSocket. destruct (_connectFailed c); [exact Hd|].
    rewrite Hd. reflexivity.
  - unfold _receiveStatus. destruct (_error c); [exact Hd|].
    destruct (_ <? _)%nat; [exact Hd|].
    destruct (_ <=? _)%nat; [|exact Hd].
    destruct (decodeStatus _) as [err fin].
    rewrite andThen_fst. unfold pure at 1. cbn [fst].
    change (_dead (set_statusIndex ?n ?x)) with (_dead x).
    match goal with |- context [match ?sc with Some _ => _ | None => _ end] =>
      destruct sc end; [rewrite statusCallback_dead|]; exact Hd.
  - unfold written. destruct (pendingWrites _) as [|[k|] rest]; try exact Hd.
    rewrite writeCallback_dead. exact Hd.
Qed.

Lemma run_dead actions c : _dead c = true -> _dead (fst (run actions c)) = true.
Proof.
  revert c; induction actions as [|a rest IH]; intros c Hd; cbn [run]; [exact Hd|].
  rewrite andThen_fst. apply IH, step_dead, Hd.
Qed.

Lemma disconnect_dead c : _dead (fst (disconnect c)) = true.
Proof.
  unfold disconnect. destruct (_dead c) eqn:Hd; [exact Hd|].
  rewrite andThen_fst. cbn. unfold _closeSocket. cbn.
  destruct (_connectFailed c); reflexivity.
Qed.

(** C5. Once [disconnect()] has been called, whatever calls and socket
    events follow, the client stays dead, and [on()], [off()] and
    [rgbw(...)] resolve at once without touching the socket or the state,
    while [status()] resolves with null. *)
Theorem dead_channel_noop (c : t) (actions : list Action) :
  let c' := fst (run actions (fst (disconnect c))) in
  _dead c' = true
  /\ on c' = (c', [PromiseResolved POn None])
  /\ off c' = (c', [PromiseResolved POff None])
  /\ (forall r g b w, rgbw r g b w c' = (c', [PromiseResolved PRgbw None]))
  /\ (forall force, status force c' = (c', [PromiseResolved (PStatus false) None])).
Proof.
  intros c'.
  assert (Hd : _dead c' = true) by apply run_dead, disconnect_dead.
  unfold on, off, rgbw, status, statusAs. rewrite Hd. auto.
Qed.

(** *** The close handler *)

Lemma closeSocket_reconnects (c : t) :
  inService c ->
  _closeSocket c =
    (fst (_closeSocket c),
     [SocketUnref; SocketDestroy; SocketNew; SocketSetNoDelay (immediate (_options c));
      SocketPause; SocketConnect (connectOptions (_options c))])
  /\ inService (fst (_closeSocket c)).
Proof.
  intros (Hd & He & Hc). unfold _closeSocket. rewrite Hc, Hd, He. cbn.
  split; [reflexivity|]. repeat split.
Qed.

Lemma closeSocket_dies (c : t) :
  _connectFailed c = false ->
  _dead c = true \/ _error c <> None ->
  _closeSocket c =
    (set_dead true c, [SocketUnref; SocketDestroy; OnTcpDead (_error c) (_disconnectCallback c)]).
Proof.
  intros Hc H. unfold _closeSocket. rewrite Hc.
  destruct (_dead c) eqn:Hd; cbn; [reflexivity|].
  destruct (_error c) eqn:He; cbn; [reflexivity|].
  destruct H; congruence.
Qed.

Lemma closeSocket_connectFailed (c : t) :
  _connectFailed c = true -> _closeSocket c = (c, []).
Proof. intros Hc. unfold _closeSocket. rewrite Hc. reflexivity. Qed.

(** A step that is neither a transport error nor a disconnect keeps the
    client in service, and asks for a connection exactly when it is a close
    notification or a call of [connect]. *)
Lemma step_quiet (a : Action) (c : t) :
  isQuiet a = true -> inService c ->
  inService (fst (step a c)) /\ length (connects (snd (step a c))) = connectsDue a.
Proof.
  intros Hq Hs.
  destruct a; try discriminate Hq; cbn [step connectsDue].
  - destruct Hs as (Hd & He & Hc). unfold connect. rewrite Hd. cbn. repeat split; assumption.
  - destruct Hs as (Hd & He & Hc). unfold status, statusAs. rewrite Hd.
    destruct (_ && _); cbn; repeat split; assumption.
  - destruct Hs as (Hd & He & Hc). unfold on. rewrite Hd. cbn. repeat split; assumption.
  - destruct Hs as (Hd & He & Hc). unfold off. rewrite Hd. cbn. repeat split; assumption.
  - destruct Hs as (Hd & He & Hc). unfold rgbw. rewrite Hd. cbn. repeat split; assumption.
  - destruct Hs as (Hd & He & Hc). unfold builtin. rewrite Hd.
    destruct (mapGet _ _); cbn; repeat split; assumption.
  - destruct Hs as (Hd & He & Hc). unfold custom. rewrite Hd.
    destruct (customModeId _); cbn; repeat split; assumption.
  - destruct Hs as (Hd & He & Hc). unfold connected. cbn.
    destruct (cache _); [|cbn; repeat split; assumption].
    unfold statusAs. cbn. rewrite Hd.
    destruct (_ && _); cbn; repeat split; assumption.
  - destruct (closeSocket_reconnects c Hs) as [-> Hs']. cbn. split; [exact Hs'|reflexivity].
  - destruct Hs as (Hd & He & Hc). unfold _receiveStatus. rewrite He.
    destruct (_ <? _)%nat; [cbn; repeat split; assumption|].
    destruct (_ <=? _)%nat; [|cbn; repeat split; assumption].
    destruct (decodeStatus _) as [err fin]. cbn.
    destruct (_statusCallback c) as [p|]; [|cbn; repeat split; assumption].
    destruct err, p as [|[]| | | | |]; cbn; repeat split; assumption.
  - destruct Hs as (Hd & He & Hc). unfold written.
    destruct (pendingWrites _) as [|[k|] rest]; try (cbn; repeat split; assumption).
    destruct c as [o d cf dc sa si [s|] so e sc]; destruct k; cbn in *; repeat split; assumption.
Qed.

Lemma run_quiet (actions : list Action) (c : t) :
  forallb isQuiet actions = true -> inService c ->
  inService (fst (run actions c))
  /\ length (connects (snd (run actions c))) = list_sum (map connectsDue actions).
Proof.
  revert c; induction actions as [|a rest IH]; intros c Hq Hs; cbn [run forallb map list_sum] in *.
  - split; [exact Hs|reflexivity].
  - apply andb_true_iff in Hq as [Ha Hrest].
    destruct (step_quiet a c Ha Hs) as [Hs1 Hn1].
    destruct (IH _ Hrest Hs1) as [Hs2 Hn2].
    rewrite andThen_fst, andThen_snd, connects_app, length_app, Hn1, Hn2.
    split; [exact Hs2|reflexivity].
Qed.

(** C1, as amended. The close handler first looks at the flag of a failed
    connection attempt: when it is set, the handler does nothing. When it is
    not set: a close notification that finds the client not dead and without
    a recorded error tears the socket down, creates a new one and calls
    [connect] again, and leaves the client in service; this holds for every
    such notification in a run of any length, so the number of connect
    attempts grows with the number of close notifications and the client
    never becomes dead. A close notification that finds the client dead, or
    an error recorded, attempts no reconnect, marks the client dead and
    notifies the owner with the recorded error. *)
Theorem closeSocket_reconnect_or_die (c : t) :
  (_connectFailed c = true -> _closeSocket c = (c, []))
  /\ (inService c ->
        snd (_closeSocket c) =
          [SocketUnref; SocketDestroy; SocketNew; SocketSetNoDelay (immediate (_options c));
           SocketPause; SocketConnect (connectOptions (_options c))]
        /\ inService (fst (_closeSocket c)))
  /\ (_connectFailed c = false -> _dead c = true \/ _error c <> None ->
        _closeSocket c =
          (set_dead true c,
           [SocketUnref; SocketDestroy; OnTcpDead (_error c) (_disconnectCallback c)]))
  /\ (forall actions, forallb isQuiet actions = true -> inService c ->
        inService (fst (run actions c))
        /\ length (connects (snd (run actions c))) = list_sum (map connectsDue actions)).
Proof.
  split; [apply closeSocket_connectFailed|].
  split.
  { intros Hs. destruct (closeSocket_reconnects c Hs) as [E Hs'].
    split; [rewrite E; reflexivity | exact Hs']. }
  split; [apply closeSocket_dies|].
  intros actions. apply run_quiet.
Qed.

Lemma closeSocket_reconnect_or_die_witness :
  inService Samples.liveClient
  /\ inService (fst (_closeSocket Samples.liveClient))
  /\ length (connects (snd (run [EvClose; EvConnected; EvClose; EvClose] Samples.liveClient)))
     = 3%nat.
Proof.
  assert (Hs : inService Samples.liveClient) by (repeat split).
  destruct (closeSocket_reconnect_or_die Samples.liveClient) as (_ & Hre & _ & Hrun).
  split; [exact Hs|].
  split; [apply Hre, Hs|].
  apply (Hrun [EvClose; EvConnected; EvClose; EvClose]); [reflexivity | exact Hs].
Defined.

(** C1, as stated, fails after a refused connection attempt: the client is
    not dead and has no error recorded, yet a close notification neither
    recreates the socket nor connects, nor does it mark the client dead or
    notify anyone; and when [disconnect()] has marked that client dead, a
    close notification does not notify the owner. *)
Lemma closeSocket_counterexample :
  let c := Samples.refusedClient in
  let c' := fst (disconnect c) in
  ~ (_dead c = false /\ _error c = None ->
     In SocketNew (snd (_closeSocket c)) /\ connects (snd (_closeSocket c)) <> [])
  /\ _closeSocket c = (c, [])
  /\ ~ (_dead c' = true ->
        exists e cb, In (OnTcpDead e cb) (snd (_closeSocket c'))).
Proof.
  cbv zeta. split; [|split].
  - intros H. destruct H as [H _]; [split; reflexivity|].
    vm_compute in H. exact H.
  - reflexivity.
  - intros H. destruct H as (e & cb & H); [reflexivity|].
    vm_compute in H. exact H.
Qed.

(** *** The status cache *)

Lemma updateStatusCache_empty (f : UfoStatus.t -> UfoStatus.t) (c : t) :
  _statusCache c = None -> _updateStatusCache f c = c.
Proof. intros H. unfold _updateStatusCache. rewrite H. reflexivity. Qed.

Lemma writeCallback_empty (k : WriteCallback) (c : t) :
  _statusCache c = None ->
  _statusCache (fst (writeCallback k c)) = None
  /\ _dead (fst (writeCallback k c)) = _dead c.
Proof.
  destruct c as [o d cf dc sa si ca so e sc]. cbn. intros ->.
  destruct k; split; reflexivity.
Qed.

Lemma status_miss (c : t) :
  _dead c = false -> _statusCache c = None ->
  snd (status false c) = [SocketResume; SocketWrite statusRequest].
Proof.
  intros Hd Hc. unfold status, statusAs. rewrite Hd, Hc.
  rewrite !andb_false_r. reflexivity.
Qed.

Lemma step_plainControl (a : Action) (c : t) :
  isPlainControl a = true -> _dead c = false -> _statusCache c = None ->
  _dead (fst (step a c)) = false /\ _statusCache (fst (step a c)) = None.
Proof.
  intros Ha Hd Hc. destruct a; try discriminate Ha; cbn [step].
  - unfold on. rewrite Hd. cbn. auto.
  - unfold off. rewrite Hd. cbn. auto.
  - unfold rgbw. rewrite Hd. cbn. auto.
  - unfold written. destruct (pendingWrites _) as [|[k|] rest]; cbn [fst pure]; auto.
    match goal with |- context [writeCallback k ?c'] =>
      destruct (writeCallback_empty k c' Hc) as [H1 H2] end.
    rewrite H1, H2. auto.
Qed.

Lemma run_plainControl (actions : list Action) (c : t) :
  forallb isPlainControl actions = true -> _dead c = false -> _statusCache c = None ->
  _dead (fst (run actions c)) = false /\ _statusCache (fst (run actions c)) = None.
Proof.
  revert c; induction actions as [|a rest IH]; intros c Hq Hd Hc; cbn [run forallb] in *.
  - auto.
  - apply andb_true_iff in Hq as [Ha Hrest].
    destruct (step_plainControl a c Ha Hd Hc) as [Hd1 Hc1].
    rewrite andThen_fst. apply IH; assumption.
Qed.

(** C10. With an empty cache, [_updateStatusCache] changes nothing, so the
    write callbacks of [on], [off] and [rgbw] (like all others) leave the
    cache empty; and after any sequence of [on], [off] and [rgbw] calls and
    completed writes on a live client whose cache is empty, the cache is
    still empty and [status(false)] resumes the socket and writes the status
    request. *)
Theorem cache_never_created (c : t) :
  _statusCache c = None ->
  (forall f, _updateStatusCache f c = c)
  /\ (forall k, _statusCache (fst (writeCallback k c)) = None)
  /\ (forall actions,
        forallb isPlainControl actions = true -> _dead c = false ->
        let c' := fst (run actions c) in
        _statusCache c' = None
        /\ snd (status false c') = [SocketResume; SocketWrite statusRequest]).
Proof.
  intros Hc. split; [|split].
  - intros f. apply updateStatusCache_empty, Hc.
  - intros k. apply writeCallback_empty, Hc.
  - intros actions Ha Hd c'.
    destruct (run_plainControl actions c Ha Hd Hc) as [Hd' Hc'].
    split; [exact Hc'|]. apply status_miss; assumption.
Qed.

Lemma cache_never_created_witness :
  _statusCache (fst (new Samples.sampleOptions)) = None
  /\ snd (status false (fst (run [CallRgbw 10 20 30 40; EvWritten; CallOn; EvWritten]
                                 (fst (new Samples.sampleOptions)))))
     = [SocketResume; SocketWrite statusRequest].
Proof.
  split; [reflexivity|].
  destruct (cache_never_created (fst (new Samples.sampleOptions))) as (_ & _ & H);
    [reflexivity|].
  apply (H [CallRgbw 10 20 30 40; EvWritten; CallOn; EvWritten]); reflexivity.
Defined.

Lemma rgbw_live (r g b w : Z) (c : t) :
  _dead c = false ->
  let finalData := _prepareBytes [0x31; _clampRGBW r; _clampRGBW g; _clampRGBW b; _clampRGBW w; 0] in
  rgbw r g b w c =
  _writePromise finalData
    (RgbwWritten finalData (_clampRGBW r) (_clampRGBW g) (_clampRGBW b) (_clampRGBW w)) PRgbw c.
Proof. intros Hd. unfold rgbw. rewrite Hd. reflexivity. Qed.

Lemma run_two (a b : Action) (c : t) : run [a; b] c = step a c >>> step b.
Proof.
  cbn [run]. destruct (step a c) as [c1 e1]. cbn.
  destruct (step b c1) as [c2 e2]. cbn. rewrite app_nil_r. reflexivity.
Qed.

Lemma rgbw_resolved_cached (r g b w : Z) (c : t) (s0 : UfoStatus.t) :
  cache (_options c) = true -> _dead c = false ->
  pendingWrites (_socket c) = [] -> _statusCache c = Some s0 ->
  let finalData := _prepareBytes [0x31; _clampRGBW r; _clampRGBW g; _clampRGBW b; _clampRGBW w; 0] in
  let c1 := fst (run [CallRgbw r g b w; EvWritten] c) in
  let s := UfoStatus.mk finalData (UfoStatus.on s0) "static" None
             (_clampRGBW r) (_clampRGBW g) (_clampRGBW b) (_clampRGBW w) in
  snd (run [CallRgbw r g b w; EvWritten] c) = [SocketWrite finalData; PromiseResolved PRgbw None]
  /\ _statusCache c1 = Some s
  /\ status false c1 = (c1, [PromiseResolved (PStatus false) (Some s)]).
Proof.
  intros Ho Hd Hp Hc finalData c1 s.
  assert (E : run [CallRgbw r g b w; EvWritten] c =
              (set_statusCache (Some s) (set_disconnectCallback None
                 (set_socket (mkSocket (paused (_socket c)) (errorListeners (_socket c)) []) c)),
               [SocketWrite finalData; PromiseResolved PRgbw None])).
  { rewrite run_two. cbn [step]. rewrite rgbw_live by exact Hd.
    clear c1. subst s finalData. cbv zeta.
    generalize (_prepareBytes [49; _clampRGBW r; _clampRGBW g; _clampRGBW b; _clampRGBW w; 0]).
    generalize (_clampRGBW r) (_clampRGBW g) (_clampRGBW b) (_clampRGBW w).
    intros r' g' b' w' fd.
    destruct c as [o d cf dc sa si ca [pa el pw] e sc]. cbn in Ho, Hd, Hp, Hc. subst.
    reflexivity. }
  subst c1. rewrite E. cbn [fst snd]. clear E.
  split; [reflexivity|]. split; [reflexivity|].
  unfold status, statusAs.
  destruct c as [o d cf dc sa si ca [pa el pw] e sc]. cbn in Ho, Hd, Hp, Hc. subst.
  cbn. rewrite Ho. reflexivity.
Qed.

Lemma builtin_live (name : string) (speed functionId : Z) (c : t) :
  _dead c = false -> mapGet builtinFunctionMap name = Some functionId ->
  builtin name speed c =
  _writePromise (_prepareBytes [0x61; functionId; _builtinFlipSpeed speed])
    BuiltinWritten PBuiltin c.
Proof. intros Hd Hid. unfold builtin. rewrite Hd, Hid. reflexivity. Qed.

Lemma builtin_resolved_clears (name : string) (speed : Z) (c : t) :
  _dead c = false -> pendingWrites (_socket c) = [] ->
  is_Some (mapGet builtinFunctionMap name) ->
  let c1 := fst (run [CallBuiltin name speed; EvWritten] c) in
  (exists buf, snd (run [CallBuiltin name speed; EvWritten] c)
               = [SocketWrite buf; PromiseResolved PBuiltin None])
  /\ _statusCache c1 = None
  /\ snd (status false c1) = [SocketResume; SocketWrite statusRequest].
Proof.
  intros Hd Hp [id Hid] c1.
  assert (E : exists buf, run [CallBuiltin name speed; EvWritten] c =
              (set_statusCache None (set_disconnectCallback None
                 (set_socket (mkSocket (paused (_socket c)) (errorListeners (_socket c)) []) c)),
               [SocketWrite buf; PromiseResolved PBuiltin None])).
  { exists (_prepareBytes [97; id; _builtinFlipSpeed speed]).
    rewrite run_two. cbn [step]. rewrite (builtin_live _ _ _ _ Hd Hid).
    clear c1.
    generalize (_prepareBytes [97; id; _builtinFlipSpeed speed]). intros buf.
    destruct c as [o d cf dc sa si ca [pa el pw] e sc]. cbn in Hd, Hp. subst.
    reflexivity. }
  destruct E as [buf E]. subst c1. rewrite E. cbn [fst snd]. clear E.
  split; [exists buf; reflexivity|]. split; [reflexivity|].
  apply status_miss; [exact Hd | reflexivity].
Qed.

(** C3, as amended. With caching enabled, on a live client that holds a
    cached status when the write of [rgbw(10, 20, 30, 40)] completes, a
    following [status(false)] resolves with the cached status, whose mode is
    "static" and whose colours are 10, 20, 30 and 40, and does nothing to
    the socket. After a built-in function was started and its write
    completed on a live client, the cache is empty and a following
    [status(false)] resumes the socket and writes the status request. *)
Theorem rgbw_then_status_from_cache (c : t) :
  _dead c = false -> pendingWrites (_socket c) = [] ->
  (cache (_options c) = true -> is_Some (_statusCache c) ->
     let c1 := fst (run [CallRgbw 10 20 30 40; EvWritten] c) in
     In (PromiseResolved PRgbw None) (snd (run [CallRgbw 10 20 30 40; EvWritten] c))
     /\ exists s,
          status false c1 = (c1, [PromiseResolved (PStatus false) (Some s)])
          /\ UfoStatus.mode s = "static"%string
          /\ UfoStatus.red s = 10 /\ UfoStatus.green s = 20
          /\ UfoStatus.blue s = 30 /\ UfoStatus.white s = 40
          /\ UfoStatus.speed s = None)
  /\ (forall name speed, is_Some (mapGet builtinFunctionMap name) ->
        let c1 := fst (run [CallBuiltin name speed; EvWritten] c) in
        In (PromiseResolved PBuiltin None) (snd (run [CallBuiltin name speed; EvWritten] c))
        /\ _statusCache c1 = None
        /\ snd (status false c1) = [SocketResume; SocketWrite statusRequest]).
Proof.
  intros Hd Hp. split.
  - intros Ho [s0 Hc].
    destruct (rgbw_resolved_cached 10 20 30 40 c s0 Ho Hd Hp Hc) as (Hes & _ & Hst).
    cbv zeta in *. split.
    + rewrite Hes. right. left. reflexivity.
    + eexists. split; [exact Hst|]. cbn. auto 10.
  - intros name speed Hname.
    destruct (builtin_resolved_clears name speed c Hd Hp Hname) as ([buf Hes] & Hc & Hst).
    cbv zeta in *. split; [|split; assumption].
    rewrite Hes. right. left. reflexivity.
Qed.

Lemma rgbw_then_status_from_cache_witness :
  _dead Samples.liveClient = false
  /\ (exists s,
        status false (fst (run [CallRgbw 10 20 30 40; EvWritten] Samples.liveClient))
        = (fst (run [CallRgbw 10 20 30 40; EvWritten] Samples.liveClient),
           [PromiseResolved (PStatus false) (Some s)])
        /\ UfoStatus.mode s = "static"%string)
  /\ _statusCache (fst (run [CallBuiltin "redStrobeFlash" 50; EvWritten] Samples.liveClient))
     = None.
Proof.
  destruct (rgbw_then_status_from_cache Samples.liveClient) as [Hrgbw Hbuiltin];
    [reflexivity | reflexivity |].
  split; [reflexivity|]. split.
  - destruct Hrgbw as (_ & s & Hst & Hm & _);
      [reflexivity | eexists; reflexivity |].
    exists s. split; [exact Hst | exact Hm].
  - apply (Hbuiltin "redStrobeFlash"%string 50). eexists. reflexivity.
Defined.

(** C3, as stated, fails: caching is on, a built-in function has cleared
    the cache, then [rgbw(10, 20, 30, 40)] resolves; the following
    [status(false)] is not answered from a cache but goes to the socket. *)
Lemma rgbw_then_status_counterexample :
  let c := fst Samples.afterBuiltinThenRgbw in
  cache (_options c) = true
  /\ _dead c = false
  /\ In (PromiseResolved PRgbw None) (snd Samples.afterBuiltinThenRgbw)
  /\ snd (status false c) = [SocketResume; SocketWrite statusRequest]
  /\ ~ (exists s, status false c = (c, [PromiseResolved (PStatus false) (Some s)])).
Proof.
  cbv zeta.
  assert (E : snd (status false (fst Samples.afterBuiltinThenRgbw))
              = [SocketResume; SocketWrite statusRequest]) by (vm_compute; reflexivity).
  split; [reflexivity|]. split; [reflexivity|].
  split; [vm_compute; auto 10|].
  split; [exact E|].
  intros [s H]. rewrite H in E. discriminate E.
Qed.

End TcpFacts.

(* ===================================================================== *)
(** ** UDP discovery and command decoding *)
(* ===================================================================== *)

Module UdpFacts.
Import UdpUtils UdpSamples.

(** *** Discovery *)

(** A string is never strictly equal to a [Buffer]. *)
Lemma strictNotEqual_string_buffer (s : jsString) (ref : nat) (bytes : jsString) :
  strictNotEqual (JsString s) (JsBuffer ref bytes) = true.
Proof. reflexivity. Qed.

(** [discover] keeps its hello payload as a [Buffer]. *)
Lemma discover_hello_is_buffer (defaultHello : jsString) (ref : nat) (options : DiscoverOptions) :
  exists bytes, hello (fst (discover defaultHello ref options)) = JsBuffer ref bytes.
Proof. unfold discover. cbn. eexists. reflexivity. Qed.

(** Hence the comparison in the 'message' listener lets every message
    through to the parser, the echo of the hello included. *)
Lemma onMessage_never_filters (d : Discovery) (ref : nat) (bytes : jsString) (msg : JsValue) :
  error d = None -> hello d = JsBuffer ref bytes ->
  onMessage msg d =
    match helloResponseParser (toStringUtf8 msg) with
    | Some r => (mkDiscovery (error d) (data d ++ [r]) (hello d) (timeout d) (remotePort d)
                             (stopDiscover d), [])
    | None => (d, [Uncaught "TypeError"])
    end.
Proof. intros He Hh. unfold onMessage. rewrite He, Hh. reflexivity. Qed.

(** C6: what the code does with the echo of its own hello. Whatever the
    options, a message with the bytes of the hello payload is not set aside:
    it reaches the parser and either becomes an entry of the result or makes
    the parser throw. With the default hello, which has no comma, it throws;
    with a password that reads like a reply, the echo is handed to the
    caller as a discovered device. *)
Theorem discover_own_broadcast_not_ignored :
  (forall defaultHello ref options msgRef,
     let d := fst (discover defaultHello ref options) in
     exists bytes,
       hello d = JsBuffer ref bytes
       /\ onMessage (JsBuffer msgRef bytes) d =
          match helloResponseParser bytes with
          | Some r => (mkDiscovery None [r] (hello d) (timeout d) (remotePort d) false, [])
          | None => (d, [Uncaught "TypeError"])
          end)
  /\ (let run := fun defaultHello options (events : list DiscoverEvent) =>
                   discoverRun events (discover defaultHello 0 options) in
      let d1 := fst (run (str "HF-A11ASSISTHREAD") noOptions [Listening; Sent None]) in
      let s2 := run (str "HF-A11ASSISTHREAD") echoOptions
                    [Listening; Sent None;
                     Message (JsBuffer 1 (str "10.0.0.9,AC-CF-23-00-00-01,me"));
                     TimeoutFired] in
      hello d1 = JsBuffer 0 (str "HF-A11ASSISTHREAD")
      /\ snd (onMessage (JsBuffer 1 (str "HF-A11ASSISTHREAD")) d1) = [Uncaught "TypeError"]
      /\ hello (fst s2) = JsBuffer 0 (str "10.0.0.9,AC-CF-23-00-00-01,me")
      /\ last (snd s2) = Some (Callback None
              [mkHello (str "10.0.0.9") (str "ac:cf:23:00:00:01") (Some (str "me"))])).
Proof.
  split.
  - intros defaultHello ref options msgRef d.
    destruct (discover_hello_is_buffer defaultHello ref options) as [bytes Hh].
    exists bytes. split; [exact Hh|].
    rewrite (onMessage_never_filters d ref bytes _ eq_refl Hh). reflexivity.
  - vm_compute. repeat split.
Qed.

Lemma onError_reports (err : Error) (d : Discovery) :
  onError err d =
    (mkDiscovery (Some err) (data d) (hello d) (timeout d) (remotePort d) (stopDiscover d),
     clearIfSet d ++ [CloseSocket] ++ clearIfSet d ++ [Callback (Some err) (data d)]).
Proof. unfold onError, socketClose, onClose, clearIfSet. cbn. reflexivity. Qed.

(** C7, as amended. A socket error ends the discovery: the timer is
    cleared, the socket is closed, and the callback is called once, with
    the error and with the replies collected up to then; messages that
    arrive afterwards are not looked at. *)
Theorem discover_error_keeps_partial_results (err : Error) (d : Discovery) :
  let d' := fst (onError err d) in
  snd (onError err d) =
    clearIfSet d ++ [CloseSocket] ++ clearIfSet d ++ [Callback (Some err) (data d)]
  /\ error d' = Some err
  /\ data d' = data d
  /\ (forall msg, onMessage msg d' = (d', [])).
Proof.
  cbv zeta. rewrite onError_reports. cbn [fst snd error data].
  repeat split.
Qed.

(** C7, as stated, fails: one device has answered when the socket fails,
    and the callback receives the error together with that answer. *)
Lemma discover_error_counterexample :
  let s := discoverRun oneReplyThenError (discover (str "HF-A11ASSISTHREAD") 0 noOptions) in
  last (snd s) = Some (Callback (Some (SocketError "EIO"))
                   [mkHello (str "10.0.0.5") (str "ac:cf:23:aa:bb:cc") (Some (str "HF-LPB100"))])
  /\ ~ (forall e data, In (Callback (Some e) data) (snd s) -> data = []).
Proof.
  cbv zeta. split; [vm_compute; reflexivity|]. intros H.
  specialize (H (SocketError "EIO")
                [mkHello (str "10.0.0.5") (str "ac:cf:23:aa:bb:cc") (Some (str "HF-LPB100"))]).
  discriminate H. vm_compute. repeat (first [left; reflexivity | right]).
Qed.

(** *** Decoding the response to a command *)

(** Where the response ends in the receive suffix, [recv] cuts as many
    characters as the receive prefix is long. The strings of UdpStrings
    being parameters here, this shows for some choices of them: with a
    prefix of three characters and a suffix of two, the last character of
    the value is lost; with a suffix of five, two characters of the suffix
    stay in the last field. *)
Lemma recv_cuts_prefix_length :
  recv (str "+ok") crlf (ThisString (str "x")) (str "+ok=abc" ++ crlf) = [str "ab"]
  /\ recv_documented (str "+ok") crlf (ThisString (str "x")) (str "+ok=abc" ++ crlf)
     = [str "abc"]
  /\ recv (str "+ok") (str "<end>") ThisArray (str "+ok=1,2<end>") = [str "1"; str "2<e"]
  /\ recv_documented (str "+ok") (str "<end>") ThisArray (str "+ok=1,2<end>")
     = [str "1"; str "2"].
Proof. vm_compute. repeat split. Qed.

Section RecvAgreement.

Variables recvPrefix recvSuffix : jsString.
Variable this : BoundThis.
Variable response : jsString.


Lemma trimStart_app_ws (w z : jsString) :
  Forall (fun c => isWhiteSpace c = true) w -> trimStart (w ++ z) = trimStart z.
Proof.
  induction 1 as [|c w Hc _ IH]; [reflexivity|].
  cbn [app trimStart]. rewrite Hc. exact IH.
Qed.

Lemma trimStart_ws (w : jsString) :
  Forall (fun c => isWhiteSpace c = true) w -> trimStart w = [].
Proof.
  intros H. rewrite <- (app_nil_r w). rewrite trimStart_app_ws by exact H. reflexivity.
Qed.

Lemma trimEnd_app_ws (y w : jsString) :
  Forall (fun c => isWhiteSpace c = true) w -> trimEnd (y ++ w) = trimEnd y.
Proof.
  intros H. unfold trimEnd. rewrite rev_app_distr.
  rewrite trimStart_app_ws; [reflexivity|].
  apply Forall_rev; exact H.
Qed.

Lemma trimStart_app_cases (x w : jsString) :
  (Forall (fun c => isWhiteSpace c = true) x /\ trimStart (x ++ w) = trimStart w)
  \/ (trimStart (x ++ w) = trimStart x ++ w).
Proof.
  induction x as [|c x IH]; cbn [app trimStart].
  - left. split; [constructor|reflexivity].
  - destruct (isWhiteSpace c) eqn:Hc.
    + destruct IH as [[Hx IH]|IH];
        [left; split; [constructor; assumption|exact IH] | right; exact IH].
    + right. reflexivity.
Qed.

Lemma trim_app_ws (x w : jsString) :
  Forall (fun c => isWhiteSpace c = true) w -> trim (x ++ w) = trim x.
Proof.
  intros Hw. unfold trim.
  destruct (trimStart_app_cases x w) as [[Hx E]|E]; rewrite E.
  - rewrite (trimStart_ws w Hw), (trimStart_ws x Hx). reflexivity.
  - apply trimEnd_app_ws, Hw.
Qed.

Lemma endsWith_split (s suffix : jsString) :
  endsWith s suffix = true ->
  s = take (length s - length suffix) s ++ suffix /\ (length suffix <= length s)%nat.
Proof.
  unfold endsWith, jsStringEqb. intros H.
  apply andb_true_iff in H as [Hl He].
  apply Nat.leb_le in Hl. apply bool_decide_eq_true in He.
  split; [|exact Hl].
  rewrite <- He at 2. symmetry. apply take_drop.
Qed.

(** Nor can it show where the suffix is all white space and at least as long
    as the prefix: what is left of the suffix is trimmed away. *)
Lemma recv_agrees_whitespace_suffix :
  Forall (fun c => isWhiteSpace c = true) recvSuffix ->
  (length recvPrefix <= length recvSuffix)%nat ->
  recv recvPrefix recvSuffix this response = recv_documented recvPrefix recvSuffix this response.
Proof.
  intros Hws Hlen. unfold recv, recv_documented. cbv zeta.
  set (r1 := if startsWith response recvPrefix then _ else _).
  set (r2 := if startsWith r1 (str "=") then _ else _).
  destruct (endsWith r2 recvSuffix) eqn:He; [|reflexivity].
  apply endsWith_split in He as [Hsplit Hl].
  set (x := take (length r2 - length recvSuffix) r2) in *.
  assert (Hx : length x = (length r2 - length recvSuffix)%nat).
  { unfold x. rewrite length_take. lia. }
  assert (E : substringTo (length r2 - length recvPrefix) r2
              = x ++ take (length recvSuffix - length recvPrefix) recvSuffix).
  { unfold substringTo. rewrite Hsplit at 2.
    rewrite take_app. rewrite take_ge by lia. f_equal. f_equal. lia. }
  rewrite E. unfold substringTo. fold x.
  rewrite trim_app_ws; [reflexivity|].
  apply Forall_take, Hws.
Qed.

End RecvAgreement.



End UdpFacts.

(* ===================================================================== *)
(** * Further properties *)
(* ===================================================================== *)

(* ===================================================================== *)
(** ** Speeds, clamping and checksums *)
(* ===================================================================== *)

Lemma clamp_range (number lower upper : Z) :
  lower <= upper -> lower <= clamp number lower upper <= upper.
Proof. intros H. rewrite clamp_max_min. lia. Qed.

Lemma clamp_id (number lower upper : Z) :
  lower <= number <= upper -> clamp number lower upper = number.
Proof. intros H. rewrite clamp_max_min. lia. Qed.


(** X2. [_clampRGBW] always yields a byte, leaves bytes alone, and is
    monotone. *)
Theorem clampRGBW_byte (value : Z) :
  is_byte (_clampRGBW value)
  /\ (is_byte value -> _clampRGBW value = value)
  /\ _clampRGBW (_clampRGBW value) = _clampRGBW value
  /\ (value < 0 -> _clampRGBW value = 0)
  /\ (255 < value -> _clampRGBW value = 255)
  /\ (forall other, value <= other -> _clampRGBW value <= _clampRGBW other).
Proof.
  unfold _clampRGBW, is_byte. rewrite !clamp_max_min.
  repeat split; intros; rewrite ?clamp_max_min; lia.
Qed.

Lemma clampRGBW_byte_witness :
  is_byte 200 /\ _clampRGBW 200 = 200 /\ _clampRGBW (-7) = 0 /\ _clampRGBW 300 = 255.
Proof.
  destruct (clampRGBW_byte 200) as (_ & Hid & _).
  destruct (clampRGBW_byte (-7)) as (_ & _ & _ & Hlow & _).
  destruct (clampRGBW_byte 300) as (_ & _ & _ & _ & Hhigh & _).
  split; [unfold is_byte; lia|].
  split; [apply Hid; unfold is_byte; lia|].
  split; [apply Hlow; lia | apply Hhigh; lia].
Defined.

Lemma sumBytes_cons (b : Z) (buf : Buffer) : sumBytes (b :: buf) = b + sumBytes buf.
Proof. change (b :: buf) with ([b] ++ buf). rewrite sumBytes_app. reflexivity. Qed.

Lemma sumBytes_insert (buf : Buffer) (i : nat) (v : Z) :
  (i < length buf)%nat ->
  sumBytes (<[i := v]> buf) = sumBytes buf - readUInt8 buf i + v.
Proof.
  revert i; induction buf as [|b buf IH]; intros i Hi; cbn [length] in Hi; [lia|].
  destruct i as [|i].
  - change (<[0%nat:=v]> (b :: buf)) with (v :: buf).
    change (readUInt8 (b :: buf) 0) with b.
    rewrite !sumBytes_cons. lia.
  - change (<[S i:=v]> (b :: buf)) with (b :: <[i:=v]> buf).
    change (readUInt8 (b :: buf) (S i)) with (readUInt8 buf i).
    rewrite !sumBytes_cons, (IH i) by lia. lia.
Qed.

Lemma readUInt8_insert_eq (buf : Buffer) (i : nat) (v : Z) :
  (i < length buf)%nat -> readUInt8 (<[i := v]> buf) i = v.
Proof. intros H. unfold readUInt8. rewrite list_lookup_insert_eq by exact H. reflexivity. Qed.

Lemma readUInt8_insert_ne (buf : Buffer) (i j : nat) (v : Z) :
  i <> j -> readUInt8 (<[i := v]> buf) j = readUInt8 buf j.
Proof. intros H. unfold readUInt8. rewrite list_lookup_insert_ne by exact H. reflexivity. Qed.

Lemma readUInt8_is_byte (buf : Buffer) (i : nat) :
  Forall is_byte buf -> is_byte (readUInt8 buf i).
Proof.
  intros H. unfold readUInt8. destruct (buf !! i) as [b|] eqn:E; cbn.
  - rewrite Forall_lookup in H. exact (H i b E).
  - unfold is_byte. lia.
Qed.

(** X3. The encoder's output is a well-formed buffer: two bytes longer than
    the input, which it leaves in front unchanged; then the flag 0x0f; then
    a checksum byte congruent modulo 256 to the sum of all the bytes before
    it; and if the input holds only bytes, so does the output. *)
Theorem prepareBytes_wellformed (buf : Buffer) :
  let out := _prepareBytes buf in
  length out = (length buf + 2)%nat
  /\ take (length buf) out = buf
  /\ readUInt8 out (length buf) = 0x0f
  /\ readUInt8 out (length buf + 1) = sumBytes (take (length buf + 1) out) mod 256
  /\ is_byte (readUInt8 out (length buf + 1))
  /\ (Forall is_byte buf -> Forall is_byte out).
Proof.
  cbv zeta. rewrite prepareBytes_eq.
  assert (Hcs : is_byte ((sumBytes buf + 15) mod 256)).
  { unfold is_byte. apply Z.mod_pos_bound. lia. }
  split; [rewrite length_app; reflexivity|].
  split; [apply take_app_length|].
  split.
  { replace (length buf) with (length buf + 0)%nat at 1 by lia.
    rewrite readUInt8_app_r. reflexivity. }
  split.
  { rewrite readUInt8_app_r.
    rewrite take_app, take_ge by lia.
    replace (length buf + 1 - length buf)%nat with 1%nat by lia.
    cbn [take]. rewrite sumBytes_app. reflexivity. }
  split.
  { rewrite readUInt8_app_r. exact Hcs. }
  intros H. apply Forall_app. split; [exact H|].
  constructor; [unfold is_byte; lia|].
  constructor; [exact Hcs | constructor].
Qed.

Lemma prepareBytes_wellformed_witness :
  Forall is_byte [0x31; 10; 20; 30; 40; 0]
  /\ Forall is_byte (_prepareBytes [0x31; 10; 20; 30; 40; 0]).
Proof.
  assert (H : Forall is_byte [0x31; 10; 20; 30; 40; 0])
    by (repeat (constructor; [unfold is_byte; lia|]); constructor).
  split; [exact H|].
  destruct (prepareBytes_wellformed [0x31; 10; 20; 30; 40; 0]) as (_ & _ & _ & _ & _ & Hb).
  apply Hb, H.
Defined.

(* ===================================================================== *)
(** ** The verdict of the status decoder *)
(* ===================================================================== *)

Lemma checksum_test (frame : Buffer) :
  negb (readUInt8 frame (statusResponseSize - 1)
        =? sumBytes (writeUInt8 0 (statusResponseSize - 1) frame) mod 0x100) = false
  <-> checksumOk frame.
Proof.
  unfold checksumOk. rewrite negb_false_iff, Z.eqb_eq. reflexivity.
Qed.

(** X4. The decoder reports the first check that fails and nothing else:
    a wrong header whatever the other bytes are, then the checksum, then
    the power byte, then the mode byte; and when all four pass it yields a
    status whose raw frame, power, mode and colours are read off bytes 2, 3
    and 6 to 9. An error never comes with a status, nor a status with an
    error. *)
Theorem decodeStatus_verdict (frame : Buffer) :
  (readUInt8 frame 0 <> statusHeader ->
     decodeStatus frame = (Some HeaderMismatch, None))
  /\ (readUInt8 frame 0 = statusHeader -> ~ checksumOk frame ->
        decodeStatus frame = (Some ChecksumMismatch, None))
  /\ (readUInt8 frame 0 = statusHeader -> checksumOk frame ->
        powerOfByte (readUInt8 frame 2) = None ->
        decodeStatus frame = (Some (ImpossiblePower (readUInt8 frame 2)), None))
  /\ (readUInt8 frame 0 = statusHeader -> checksumOk frame ->
        is_Some (powerOfByte (readUInt8 frame 2)) ->
        modeOfByte (readUInt8 frame 3) = None ->
        decodeStatus frame = (Some (ImpossibleMode (readUInt8 frame 3)), None))
  /\ (forall on m,
        readUInt8 frame 0 = statusHeader -> checksumOk frame ->
        powerOfByte (readUInt8 frame 2) = Some on ->
        modeOfByte (readUInt8 frame 3) = Some m ->
        exists status,
          decodeStatus frame = (None, Some status)
          /\ UfoStatus.raw status = frame
          /\ UfoStatus.on status = on
          /\ UfoStatus.mode status = m
          /\ UfoStatus.red status = readUInt8 frame 6
          /\ UfoStatus.green status = readUInt8 frame 7
          /\ UfoStatus.blue status = readUInt8 frame 8
          /\ UfoStatus.white status = readUInt8 frame 9)
  /\ (fst (decodeStatus frame) = None <-> is_Some (snd (decodeStatus frame))).
Proof.
  split; [|split; [|split; [|split; [|split]]]].
  - intros Hh. unfold decodeStatus.
    apply Z.eqb_neq in Hh. rewrite Hh. reflexivity.
  - intros Hh Hc. unfold decodeStatus. rewrite Hh, Z.eqb_refl.
    destruct (negb _) eqn:E; [reflexivity|].
    apply checksum_test in E. contradiction.
  - intros Hh Hc Hp. unfold decodeStatus. rewrite Hh, Z.eqb_refl.
    apply checksum_test in Hc. rewrite Hc, Hp. reflexivity.
  - intros Hh Hc [on Hp] Hm. unfold decodeStatus. rewrite Hh, Z.eqb_refl.
    apply checksum_test in Hc. rewrite Hc, Hp, Hm. reflexivity.
  - intros on m Hh Hc Hp Hm. unfold decodeStatus. rewrite Hh, Z.eqb_refl.
    apply checksum_test in Hc. rewrite Hc, Hp, Hm.
    eexists. split; [reflexivity|].
    destruct (String.eqb _ _), (startsWith _ _); cbn; auto 10.
  - unfold decodeStatus.
    destruct (readUInt8 frame 0 =? statusHeader);
      [|cbn; split; [discriminate | intros [? [=]]]].
    destruct (negb _); [cbn; split; [discriminate | intros [? [=]]]|].
    destruct (powerOfByte _); [|cbn; split; [discriminate | intros [? [=]]]].
    destruct (modeOfByte _); [|cbn; split; [discriminate | intros [? [=]]]].
    cbn. split; [eauto | reflexivity].
Qed.

Lemma decodeStatus_verdict_witness :
  (exists status,
     decodeStatus (_prepareBytes Samples.samplePayload) = (None, Some status)
     /\ UfoStatus.on status = true /\ UfoStatus.mode status = "static"%string)
  /\ decodeStatus (alloc 14) = (Some HeaderMismatch, None)
  /\ decodeStatus (<[13%nat := 0]> (_prepareBytes Samples.samplePayload))
     = (Some ChecksumMismatch, None)
  /\ decodeStatus (_prepareBytes [0x81; 4; 0x25; 0x61; 0x21; 5; 1; 2; 3; 4; 3; 0])
     = (Some (ImpossiblePower 0x25), None)
  /\ decodeStatus (_prepareBytes [0x81; 4; 0x23; 0x64; 0x21; 5; 1; 2; 3; 4; 3; 0])
     = (Some (ImpossibleMode 0x64), None).
Proof.
  split.
  { destruct (decodeStatus_verdict (_prepareBytes Samples.samplePayload))
      as (_ & _ & _ & _ & Hok & _).
    destruct (Hok true "static"%string) as (status & E & _ & Hon & Hm & _);
      [reflexivity | reflexivity | reflexivity | reflexivity |].
    exists status. auto. }
  split.
  { destruct (decodeStatus_verdict (alloc 14)) as (H & _). apply H. vm_compute. discriminate. }
  split.
  { destruct (decodeStatus_verdict (<[13%nat := 0]> (_prepareBytes Samples.samplePayload)))
      as (_ & H & _).
    apply H; [reflexivity | vm_compute; discriminate]. }
  split.
  { destruct (decodeStatus_verdict
                (_prepareBytes [0x81; 4; 0x25; 0x61; 0x21; 5; 1; 2; 3; 4; 3; 0]))
      as (_ & _ & H & _).
    apply H; reflexivity. }
  destruct (decodeStatus_verdict
              (_prepareBytes [0x81; 4; 0x23; 0x64; 0x21; 5; 1; 2; 3; 4; 3; 0]))
    as (_ & _ & _ & H & _).
  apply H; [reflexivity | reflexivity | exists true; reflexivity | reflexivity].
Defined.

(** X5. The checksum catches every corruption of one byte: in a 14-byte
    frame of bytes that carries the header and a good checksum, replacing
    any one byte behind the header by a different byte makes the decoder
    report the checksum error. *)
Theorem single_byte_corruption_detected (frame : Buffer) (i : nat) (v : Z) :
  length frame = statusResponseSize ->
  Forall is_byte frame ->
  readUInt8 frame 0 = statusHeader ->
  checksumOk frame ->
  (1 <= i <= 13)%nat ->
  is_byte v ->
  v <> readUInt8 frame i ->
  decodeStatus (<[i := v]> frame) = (Some ChecksumMismatch, None).
Proof.
  intros Hlen Hbytes Hh Hc Hi Hv Hne.
  unfold statusResponseSize in Hlen.
  assert (Hold : is_byte (readUInt8 frame i)) by (apply readUInt8_is_byte, Hbytes).
  assert (Hlast : is_byte (readUInt8 frame 13)) by (apply readUInt8_is_byte, Hbytes).
  unfold checksumOk, writeUInt8 in Hc.
  change (statusResponseSize - 1)%nat with 13%nat in Hc.
  rewrite sumBytes_insert in Hc by lia.
  unfold decodeStatus, writeUInt8.
  change (statusResponseSize - 1)%nat with 13%nat.
  rewrite readUInt8_insert_ne by lia. rewrite Hh, Z.eqb_refl.
  rewrite sumBytes_insert by (rewrite length_insert; lia).
  rewrite sumBytes_insert by lia.
  assert (Hmis : readUInt8 (<[i:=v]> frame) 13
                 <> (sumBytes frame - readUInt8 frame i + v
                     - readUInt8 (<[i:=v]> frame) 13 + 0) mod 256).
  { destruct (decide (i = 13%nat)) as [->|Hi13].
    - rewrite readUInt8_insert_eq by lia.
      replace (sumBytes frame - readUInt8 frame 13 + v - v + 0)
        with (sumBytes frame - readUInt8 frame 13 + 0) by lia.
      rewrite <- Hc. exact Hne.
    - rewrite readUInt8_insert_ne by exact Hi13.
      rewrite Hc at 1. intros E.
      unfold is_byte in *.
      set (S := sumBytes frame - readUInt8 frame 13 + 0) in *.
      replace (sumBytes frame - readUInt8 frame i + v - readUInt8 frame 13 + 0)
        with (S + (v - readUInt8 frame i)) in E by (unfold S; lia).
      set (d := v - readUInt8 frame i) in *.
      assert (Hd : d <> 0 /\ -256 < d < 256) by (unfold d; lia).
      pose proof (Z.div_mod S 256 ltac:(lia)) as E1.
      pose proof (Z.div_mod (S + d) 256 ltac:(lia)) as E2.
      rewrite <- E in E2.
      assert (d = 256 * ((S + d) / 256 - S / 256)) by lia.
      lia. }
  apply Z.eqb_neq in Hmis. rewrite Hmis. reflexivity.
Qed.

Lemma single_byte_corruption_detected_witness :
  checksumOk (_prepareBytes Samples.samplePayload)
  /\ decodeStatus (<[6%nat := 200]> (_prepareBytes Samples.samplePayload))
     = (Some ChecksumMismatch, None).
Proof.
  split; [reflexivity|].
  apply single_byte_corruption_detected;
    [reflexivity
    | repeat (constructor; [unfold is_byte; vm_compute; split; [discriminate | reflexivity]|]);
      constructor
    | reflexivity | reflexivity | lia | unfold is_byte; lia | vm_compute; discriminate].
Defined.

(* ===================================================================== *)
(** ** The table of built-in functions *)
(* ===================================================================== *)

(** Case analysis over the table: a name that [mapGet] finds is one of its
    keys. *)
Ltac table_cases H :=
  cbv [mapGet builtinFunctionMap] in H;
  repeat match type of H with
         | (if String.eqb ?k ?name then _ else _) = Some _ =>
             destruct (String.eqb_spec k name) as [<-|_];
             [injection H as <-|]
         end;
  [..|discriminate H].

(** X6. The ids of the table are bytes and no id is used twice, so the
    decoder's search by id finds the very name whose id [builtin] sends. A
    status frame with that id in its mode byte is reported as
    "function:<name>" -- except for "noFunction", whose id 0x61 is the
    byte of the static mode and is reported as "static". *)
Theorem builtin_id_roundtrip (name : string) (id : Z) :
  mapGet builtinFunctionMap name = Some id ->
  is_byte id
  /\ nameOfId builtinFunctionMap id = Some name
  /\ modeOfByte id =
       Some (if String.eqb name "noFunction" then "static" else "function:" ++ name)%string.
Proof.
  intros H. table_cases H.
  all: split; [unfold is_byte; lia|]; split; reflexivity.
Qed.

Lemma builtin_id_roundtrip_witness :
  mapGet builtinFunctionMap "redStrobeFlash" = Some 0x31
  /\ modeOfByte 0x31 = Some "function:redStrobeFlash"%string
  /\ modeOfByte 0x61 = Some "static"%string.
Proof.
  split; [reflexivity|].
  destruct (builtin_id_roundtrip "redStrobeFlash" 0x31 eq_refl) as (_ & _ & H1).
  destruct (builtin_id_roundtrip "noFunction" 0x61 eq_refl) as (_ & _ & H2).
  split; [exact H1 | exact H2].
Defined.

Lemma getBuiltinFunctions_eq :
  getBuiltinFunctions =
  [ "blueGradualChange"; "blueStrobeFlash"; "cyanGradualChange"; "cyanStrobeFlash";
    "greenBlueCrossFade"; "greenGradualChange"; "greenStrobeFlash"; "purpleGradualChange";
    "purpleStrobeFlash"; "redBlueCrossFade"; "redGradualChange"; "redGreenCrossFade";
    "redStrobeFlash"; "sevenColorCrossFade"; "sevenColorJumpingChange";
    "sevenColorStrobeFlash"; "whiteGradualChange"; "whiteStrobeFlash";
    "yellowGradualChange"; "yellowStrobeFlash" ]%string.
Proof. vm_compute. reflexivity. Qed.

(** X7. [getBuiltinFunctions()] lists, in ascending order and without
    repetition, exactly the names that [builtin] accepts and that are not
    reserved; and every name it lists is one the status decoder can report
    back as "function:<name>". *)
Theorem getBuiltinFunctions_usable (name : string) :
  (In name getBuiltinFunctions <->
     is_Some (mapGet builtinFunctionMap name)
     /\ includes builtinFunctionReservedNames name = false)
  /\ (In name getBuiltinFunctions ->
        exists id, mapGet builtinFunctionMap name = Some id
                   /\ modeOfByte id = Some ("function:" ++ name)%string)
  /\ ascending getBuiltinFunctions = true
  /\ NoDup getBuiltinFunctions
  /\ length getBuiltinFunctions = 20%nat.
Proof.
  rewrite getBuiltinFunctions_eq.
  split; [split|split; [|split; [|split]]].
  - intros H. cbn [In] in H.
    repeat (destruct H as [<-|H]; [split; [eexists; reflexivity | reflexivity]|]).
    destruct H.
  - intros [[id H] Hr]. table_cases H.
    all: try discriminate Hr.
    all: cbn [In]; auto 25.
  - intros H. cbn [In] in H.
    repeat (destruct H as [<-|H]; [eexists; split; reflexivity|]).
    destruct H.
  - reflexivity.
  - repeat (apply NoDup_cons_2; [rewrite list_elem_of_In; cbn [In]; intros H;
      repeat (destruct H as [H|H]; [discriminate H|]); destruct H|]).
    apply NoDup_nil_2.
  - reflexivity.
Qed.

Lemma getBuiltinFunctions_usable_witness :
  In "redStrobeFlash"%string getBuiltinFunctions
  /\ (exists id, mapGet builtinFunctionMap "redStrobeFlash" = Some id
                 /\ modeOfByte id = Some "function:redStrobeFlash"%string)
  /\ ~ In "noFunction"%string getBuiltinFunctions.
Proof.
  destruct (getBuiltinFunctions_usable "redStrobeFlash") as (Hiff & Hdec & _).
  destruct (getBuiltinFunctions_usable "noFunction") as (Hiff' & _).
  assert (Hin : In "redStrobeFlash"%string getBuiltinFunctions).
  { apply Hiff. split; [eexists; reflexivity | reflexivity]. }
  split; [exact Hin|]. split; [exact (Hdec Hin)|].
  intros H. apply Hiff' in H. destruct H as [_ H]. discriminate H.
Defined.

(* ===================================================================== *)
(** ** The TCP client: further properties *)
(* ===================================================================== *)

Module TcpExtra.
Import TcpClient Lifecycle Coverage.

(** A property of the state that every 'error' listener keeps is kept by
    the 'error' event. *)
Lemma socketError_preserves (P : t -> Prop) (err : Error) (c : t) :
  (forall l c', P c' -> P (fst (errorListener l err c'))) ->
  P c -> P (fst (socketError err c)).
Proof.
  intros Hl Hc. unfold socketError.
  destruct (errorListeners (_socket c)) as [|l ls]; [exact Hc|].
  generalize (l :: ls). clear l ls. intros ls.
  change c with (fst (pure c)) in Hc. revert Hc. generalize (pure c).
  induction ls as [|l ls IH]; intros s Hs; cbn [fold_left]; [exact Hs|].
  apply IH. rewrite TcpFacts.andThen_fst. apply Hl, Hs.
Qed.

(** *** Invariants of every reachable state *)

Lemma arraySet_length (data : Buffer) (offset : nat) (array : Buffer) :
  (offset + length data <= length array)%nat ->
  length (arraySet data offset array) = length array.
Proof.
  intros H. unfold arraySet.
  rewrite !length_app, length_take, length_drop. lia.
Qed.

Lemma statusAs_invariant (p : Promise) (force : bool) (c : t) :
  clientInvariant c -> clientInvariant (fst (statusAs p force c)).
Proof.
  intros [Hr Hp]. unfold statusAs.
  destruct (_dead c); [split; assumption|].
  destruct (_ && _); [split; assumption|].
  split; [exact Hr|]. intros _. cbn. eauto.
Qed.

Lemma statusCallback_invariant (p : Promise) (err : option Error)
    (data : option UfoStatus.t) (c : t) :
  reassemblyOk c -> clientInvariant (fst (statusCallback p err data c)).
Proof.
  intros Hr. unfold statusCallback.
  destruct err; (split; [exact Hr | intros H; cbn in H; discriminate H]).
Qed.

Lemma writeCallback_invariant (k : WriteCallback) (c : t) :
  clientInvariant c -> clientInvariant (fst (writeCallback k c)).
Proof.
  destruct c as [o d cf dc sa si [s|] so e sc]; destruct k; intros H; exact H.
Qed.

Lemma writePromise_invariant (buffer : Buffer) (k : WriteCallback) (p : Promise) (c : t) :
  clientInvariant c -> clientInvariant (fst (_writePromise buffer k p c)).
Proof. intros H. exact H. Qed.

Lemma receiveStatus_invariant (data : Buffer) (c : t) :
  clientInvariant c -> clientInvariant (fst (_receiveStatus data c)).
Proof.
  intros [[Hlen Hidx] Hp]. unfold _receiveStatus.
  destruct (_error c); [split; [split|]; assumption|].
  destruct (_ <? _)%nat eqn:Hfit; [split; [split|]; assumption|].
  apply Nat.ltb_ge in Hfit.
  destruct (_ <=? _)%nat eqn:Hfull.
  - destruct (decodeStatus _) as [err fin].
    rewrite TcpFacts.andThen_fst. cbn [pure fst].
    assert (Hr : reassemblyOk
                   (set_statusArray
                      (alloc (length (_statusArray
                         (set_statusArray (arraySet data (_statusIndex c) (_statusArray c)) c))))
                      (set_statusArray (arraySet data (_statusIndex c) (_statusArray c)) c))).
    { split; cbn; [|exact Hidx].
      unfold alloc. rewrite length_replicate, arraySet_length by exact Hfit. exact Hlen. }
    match goal with |- context [match ?sc with Some _ => _ | None => _ end] =>
      destruct sc as [p|] eqn:Hsc end.
    + destruct (statusCallback_invariant p err fin _ Hr) as [[Hl' _] Hp'].
      split; [split; [exact Hl' | cbn; unfold statusResponseSize; lia] | exact Hp'].
    + destruct Hr as [Hl' _].
      split; [split; [exact Hl' | cbn; unfold statusResponseSize; lia]|].
      intros H. cbn in H. cbn in Hsc. destruct (Hp H) as [x Hx]. congruence.
  - apply Nat.leb_gt in Hfull.
    split; [split; cbn; [rewrite arraySet_length by exact Hfit; exact Hlen | exact Hfull]
           | exact Hp].
Qed.

Lemma receiveStatus_reassemblyOk (data : Buffer) (c : t) :
  reassemblyOk c -> reassemblyOk (fst (_receiveStatus data c)).
Proof.
  intros [Hlen Hidx]. unfold _receiveStatus.
  destruct (_error c); [split; assumption|].
  destruct (_ <? _)%nat eqn:Hfit; [split; assumption|].
  apply Nat.ltb_ge in Hfit.
  destruct (_ <=? _)%nat eqn:Hfull.
  - destruct (decodeStatus _) as [err fin].
    rewrite TcpFacts.andThen_fst. cbn [pure fst].
    assert (Hr : length (alloc (length (arraySet data (_statusIndex c) (_statusArray c))))
                 = statusResponseSize).
    { unfold alloc. rewrite length_replicate, arraySet_length by exact Hfit. exact Hlen. }
    match goal with |- context [match ?sc with Some _ => _ | None => _ end] =>
      destruct sc as [p|] end.
    + destruct err; (split; [exact Hr | cbn; unfold statusResponseSize; lia]).
    + split; [exact Hr | cbn; unfold statusResponseSize; lia].
  - apply Nat.leb_gt in Hfull.
    split; cbn; [rewrite arraySet_length by exact Hfit; exact Hlen | exact Hfull].
Qed.

Lemma step_invariant (a : Action) (c : t) :
  clientInvariant c -> clientInvariant (fst (step a c)).
Proof.
  intros H. destruct a; cbn [step].
  - unfold connect. destruct (_dead c); exact H.
  - unfold disconnect. destruct (_dead c); [exact H|].
    rewrite TcpFacts.andThen_fst. unfold _closeSocket. cbn.
    destruct (_connectFailed c); exact H.
  - apply statusAs_invariant, H.
  - unfold on. destruct (_dead c); exact H.
  - unfold off. destruct (_dead c); exact H.
  - unfold rgbw. destruct (_dead c); exact H.
  - unfold builtin. destruct (_dead c); [exact H|]. destruct (mapGet _ _); exact H.
  - unfold custom. destruct (_dead c); [exact H|]. destruct (customModeId _); exact H.
  - unfold connected. cbn. destruct (cache _); [|exact H].
    apply statusAs_invariant. exact H.
  - apply (socketError_preserves clientInvariant); [|exact H].
    intros [] c' H'; exact H'.
  - unfold _closeSocket. destruct (_connectFailed c); [exact H|].
    destruct (_dead c); cbn; [exact H|].
    destruct (_error c); cbn; [exact H|].
    split; [split; cbn; [reflexivity | unfold statusResponseSize; lia]|].
    intros Hp. cbn in Hp. discriminate Hp.
  - apply receiveStatus_invariant, H.
  - unfold written. destruct (pendingWrites _) as [|[k|] rest]; try exact H.
    apply writeCallback_invariant. exact H.
Qed.

(** X8. In every state that a client can reach from its construction, by
    whatever calls and socket events, the reassembly array is 14 bytes long
    and the offset stays below 14, and the socket is reading only while a
    status request is outstanding. *)
Theorem client_invariants (options : TcpOptions) (actions : list Action) :
  let c := fst (run actions (fst (new options))) in
  length (_statusArray c) = 14%nat
  /\ (_statusIndex c < 14)%nat
  /\ (paused (_socket c) = false -> is_Some (_statusCallback c)).
Proof.
  cbv zeta.
  assert (H0 : clientInvariant (fst (new options))).
  { split; [split; cbn; [reflexivity | unfold statusResponseSize; lia]|].
    intros H. cbn in H. discriminate H. }
  revert H0. generalize (fst (new options)).
  induction actions as [|a rest IH]; intros c Hc; cbn [run].
  - destruct Hc as [[H1 H2] H3]. auto.
  - rewrite TcpFacts.andThen_fst. apply IH, step_invariant, Hc.
Qed.

(** *** What goes to the socket *)

Lemma writtenBuffers_app (es es' : list Effect) :
  writtenBuffers (es ++ es') = writtenBuffers es ++ writtenBuffers es'.
Proof. unfold writtenBuffers. apply flat_map_app. Qed.

Lemma resolve_no_write (p : Promise) (v : option UfoStatus.t) :
  writtenBuffers (resolve p v) = [].
Proof. destruct p as [|[]| | | | |]; reflexivity. Qed.

Lemma reject_no_write (p : Promise) (e : Error) :
  writtenBuffers (reject p e) = [].
Proof. destruct p as [|[]| | | | |]; reflexivity. Qed.

Lemma statusAs_writes (p : Promise) (force : bool) (c : t) :
  writtenBuffers (snd (statusAs p force c)) = []
  \/ writtenBuffers (snd (statusAs p force c)) = [statusRequest].
Proof.
  unfold statusAs. destruct (_dead c); [left; apply resolve_no_write|].
  destruct (_ && _); [left; apply resolve_no_write|]. right. reflexivity.
Qed.

Lemma socketError_no_write (err : Error) (c : t) :
  writtenBuffers (snd (socketError err c)) = [].
Proof.
  unfold socketError.
  destruct (errorListeners (_socket c)) as [|l ls]; [reflexivity|].
  generalize (l :: ls). clear l ls. intros ls.
  assert (H : writtenBuffers (snd (pure c)) = []) by reflexivity.
  revert H. generalize (pure c).
  induction ls as [|l ls IH]; intros s Hs; cbn [fold_left]; [exact Hs|].
  apply IH. rewrite TcpFacts.andThen_snd, writtenBuffers_app, Hs.
  destruct l; [apply reject_no_write | reflexivity].
Qed.

Lemma receiveStatus_no_write (data : Buffer) (c : t) :
  writtenBuffers (snd (_receiveStatus data c)) = [].
Proof.
  unfold _receiveStatus.
  destruct (_error c); [reflexivity|].
  destruct (_ <? _)%nat; [reflexivity|].
  destruct (_ <=? _)%nat; [|reflexivity].
  destruct (decodeStatus _) as [err fin].
  rewrite TcpFacts.andThen_snd, writtenBuffers_app, app_nil_r.
  match goal with |- context [match ?sc with Some _ => _ | None => _ end] =>
    destruct sc as [p|] end; [|reflexivity].
  unfold statusCallback. rewrite TcpFacts.andThen_snd, writtenBuffers_app.
  destruct err; cbn [snd]; [apply reject_no_write | apply resolve_no_write].
Qed.

Lemma closeSocket_no_write (c : t) : writtenBuffers (snd (_closeSocket c)) = [].
Proof.
  unfold _closeSocket. destruct (_connectFailed c); [reflexivity|].
  destruct (_dead c); [reflexivity|]. destruct (_error c); reflexivity.
Qed.

Lemma written_no_write (c : t) : writtenBuffers (snd (written c)) = [].
Proof.
  unfold written. destruct (pendingWrites _) as [|[k|] rest]; try reflexivity.
  unfold writeCallback. cbn [snd]. apply resolve_no_write.
Qed.

Lemma prepared_wellformed (body : Buffer) :
  Forall is_byte body ->
  Forall is_byte (_prepareBytes body) /\ endsInChecksum (_prepareBytes body).
Proof.
  intros H. rewrite prepareBytes_eq.
  assert (Hcs : is_byte ((sumBytes body + 15) mod 256)).
  { unfold is_byte. apply Z.mod_pos_bound. lia. }
  split.
  - apply Forall_app. split; [exact H|].
    constructor; [unfold is_byte; lia|]. constructor; [exact Hcs | constructor].
  - exists (body ++ [15]), ((sumBytes body + 15) mod 256).
    split; [rewrite <- app_assoc; reflexivity|].
    rewrite sumBytes_app. reflexivity.
Qed.

Lemma constants_wellformed :
  (Forall is_byte statusRequest /\ endsInChecksum statusRequest)
  /\ (Forall is_byte powerOn /\ endsInChecksum powerOn)
  /\ (Forall is_byte powerOff /\ endsInChecksum powerOff).
Proof.
  repeat split;
    try (repeat (constructor; [unfold is_byte; vm_compute; split; [discriminate|reflexivity]|]);
         constructor).
  - exists [statusHeader; 0x8A; 0x8B], 0x96. split; reflexivity.
  - exists [0x71; 0x23; 0x0F], 0xA3. split; reflexivity.
  - exists [0x71; 0x24; 0x0F], 0xA4. split; reflexivity.
Qed.

Lemma clampRGBW_is_byte (value : Z) : is_byte (_clampRGBW value).
Proof. unfold _clampRGBW, is_byte. rewrite clamp_max_min. lia. Qed.

Lemma mapGet_is_byte (name : string) (id : Z) :
  mapGet builtinFunctionMap name = Some id -> is_byte id.
Proof. intros H. table_cases H. all: unfold is_byte; lia. Qed.

Lemma customModeId_cases (mode : string) (modeId : Z) :
  customModeId mode = Some modeId ->
  (mode = "gradual"%string /\ modeId = 0x3A)
  \/ (mode = "jumping"%string /\ modeId = 0x3B)
  \/ (mode = "strobe"%string /\ modeId = 0x3C).
Proof.
  unfold customModeId.
  destruct (String.eqb_spec mode "gradual"); [intros [= <-]; auto|].
  destruct (String.eqb_spec mode "jumping"); [intros [= <-]; auto|].
  destruct (String.eqb_spec mode "strobe"); [intros [= <-]; auto|].
  discriminate.
Qed.

Lemma customBuffer_is_bytes (modeId speed : Z) (steps : list CustomStep.t) :
  is_byte modeId -> Forall is_byte (customBuffer modeId speed steps).
Proof.
  intros Hm. unfold customBuffer.
  apply Forall_app. split; [constructor; [unfold is_byte; lia | constructor]|].
  apply Forall_app. split.
  - generalize (stepsCopy steps). intros l.
    induction l as [|s l IH]; cbn [map concat]; [constructor|].
    apply Forall_app. split; [|exact IH].
    unfold stepBytes.
    repeat (constructor; [first [apply clampRGBW_is_byte | unfold is_byte; lia]|]).
    constructor.
  - constructor.
    { unfold _customFlipSpeed, is_byte, maxCustomSpeed. rewrite clamp_max_min. lia. }
    constructor; [exact Hm|]. constructor; [unfold is_byte; lia | constructor].
Qed.

(** X9. Whatever the call or the socket event, and whatever the state and
    the arguments, every buffer the client hands to [socket.write] holds
    only bytes and ends in the checksum (sum modulo 256) of the bytes
    before it; this includes the three buffers that are written as
    constants, without passing through the encoder. *)
Theorem writes_wellformed (a : Action) (c : t) (buf : Buffer) :
  In buf (writtenBuffers (snd (step a c))) ->
  Forall is_byte buf /\ endsInChecksum buf.
Proof.
  destruct constants_wellformed as (Hstatus & Hon & Hoff).
  assert (Hst : forall p force, In buf (writtenBuffers (snd (statusAs p force c))) ->
                  Forall is_byte buf /\ endsInChecksum buf).
  { intros p force H. destruct (statusAs_writes p force c) as [E|E]; rewrite E in H.
    - destruct H.
    - destruct H as [<-|[]]. exact Hstatus. }
  destruct a; cbn [step].
  - unfold connect. destruct (_dead c); intros [].
  - unfold disconnect. destruct (_dead c); [intros []|].
    rewrite TcpFacts.andThen_snd, writtenBuffers_app, closeSocket_no_write. intros [].
  - apply Hst.
  - unfold on. destruct (_dead c); [intros []|]. intros [<-|[]]. exact Hon.
  - unfold off. destruct (_dead c); [intros []|]. intros [<-|[]]. exact Hoff.
  - unfold rgbw. destruct (_dead c); [intros []|]. intros [<-|[]].
    apply prepared_wellformed.
    cbn. repeat (constructor; [first [apply clampRGBW_is_byte | unfold is_byte; lia]|]).
    constructor.
  - unfold builtin. destruct (_dead c); [intros []|].
    destruct (mapGet _ _) as [id|] eqn:Hid; [|intros []].
    intros [<-|[]]. apply prepared_wellformed. cbn.
    constructor; [unfold is_byte; lia|].
    constructor; [exact (mapGet_is_byte _ _ Hid)|].
    constructor; [|constructor].
    unfold _builtinFlipSpeed, is_byte, maxBuiltinSpeed. rewrite clamp_max_min. lia.
  - unfold custom. destruct (_dead c); [intros []|].
    destruct (customModeId _) as [modeId|] eqn:Hm; [|intros []].
    intros [<-|[]]. apply prepared_wellformed, customBuffer_is_bytes.
    destruct (customModeId_cases _ _ Hm) as [[_ ->]|[[_ ->]|[_ ->]]]; unfold is_byte; lia.
  - unfold connected. cbn. destruct (cache _); [|intros []].
    match goal with |- context [statusAs ?p ?f ?c'] =>
      destruct (statusAs_writes p f c') as [E|E] end; rewrite E.
    + intros [].
    + intros [<-|[]]. exact Hstatus.
  - rewrite socketError_no_write. intros [].
  - rewrite closeSocket_no_write. intros [].
  - rewrite receiveStatus_no_write. intros [].
  - rewrite written_no_write. intros [].
Qed.

Lemma writes_wellformed_witness :
  In (_prepareBytes [0x31; 255; 0; 30; 40; 0])
     (writtenBuffers (snd (step (CallRgbw 300 (-5) 30 40) Samples.liveClient)))
  /\ Forall is_byte (_prepareBytes [0x31; 255; 0; 30; 40; 0])
  /\ endsInChecksum (_prepareBytes [0x31; 255; 0; 30; 40; 0]).
Proof.
  assert (H : In (_prepareBytes [0x31; 255; 0; 30; 40; 0])
                 (writtenBuffers (snd (step (CallRgbw 300 (-5) 30 40) Samples.liveClient))))
    by (left; reflexivity).
  split; [exact H|].
  exact (writes_wellformed _ _ _ H).
Defined.

(** *** Reassembly of the status response *)

Lemma arraySet_arraySet (d1 d2 : Buffer) (k : nat) (array : Buffer) :
  (k + length d1 + length d2 <= length array)%nat ->
  arraySet d2 (k + length d1) (arraySet d1 k array) = arraySet (d1 ++ d2) k array.
Proof.
  intros H. unfold arraySet.
  assert (Hk : length (take k array) = k) by (rewrite length_take; lia).
  rewrite length_app.
  set (A := take k array) in *. set (D := drop (k + length d1) array).
  assert (E1 : take (k + length d1) (A ++ d1 ++ D) = A ++ d1).
  { rewrite app_assoc. apply take_app_length'. rewrite length_app. lia. }
  assert (E2 : drop (k + length d1 + length d2) (A ++ d1 ++ D) = drop (length d2) D).
  { rewrite app_assoc. rewrite drop_app_ge by (rewrite length_app; lia).
    f_equal. rewrite length_app. lia. }
  rewrite E1, E2. unfold D. rewrite drop_drop.
  rewrite <- !app_assoc.
  replace (k + length d1 + length d2)%nat with (k + (length d1 + length d2))%nat by lia.
  reflexivity.
Qed.

Lemma arraySet_nil (k : nat) (array : Buffer) : arraySet [] k array = array.
Proof. unfold arraySet. cbn [length app]. rewrite Nat.add_0_r. apply take_drop. Qed.

(** A chunk that does not complete the response is stored, and nothing
    else happens. *)
Lemma receive_partial (data : Buffer) (c : t) :
  _error c = None -> length (_statusArray c) = 14%nat ->
  (_statusIndex c + length data < 14)%nat ->
  _receiveStatus data c =
    (set_statusIndex (_statusIndex c + length data)
       (set_statusArray (arraySet data (_statusIndex c) (_statusArray c)) c), []).
Proof.
  intros He Hl Hk. unfold _receiveStatus. rewrite He, Hl.
  destruct (Nat.ltb_spec 14 (_statusIndex c + length data)); [lia|].
  unfold statusResponseSize.
  destruct (Nat.leb_spec 14 (_statusIndex c + length data)); [lia|].
  reflexivity.
Qed.

(** A chunk that completes the response is handled like the whole response
    arriving at once in a client with empty storage. *)
Lemma receive_complete (data : Buffer) (c : t) :
  _error c = None -> length (_statusArray c) = 14%nat ->
  (_statusIndex c + length data = 14)%nat ->
  _receiveStatus data c =
    _receiveStatus (arraySet data (_statusIndex c) (_statusArray c))
      (set_statusArray (alloc 14) (set_statusIndex 0 c)).
Proof.
  intros He Hl Hk.
  assert (Hfull : length (arraySet data (_statusIndex c) (_statusArray c)) = 14%nat).
  { rewrite arraySet_length by lia. exact Hl. }
  destruct c as [o d cf dc sa si ca so e sc].
  cbn [_error _statusArray _statusIndex] in He, Hl, Hk, Hfull. subst e.
  unfold _receiveStatus. cbn [_error _statusIndex _statusArray set_statusArray
    set_statusIndex _options _dead _connectFailed _disconnectCallback _statusCache
    _socket _statusCallback].
  assert (E : arraySet (arraySet data si sa) 0 (alloc 14) = arraySet data si sa).
  { unfold arraySet at 1. rewrite Hfull. cbn [take Nat.add app].
    rewrite drop_ge by (unfold alloc; rewrite length_replicate; lia).
    apply app_nil_r. }
  rewrite E, Hl, Hfull, Hk.
  change (length (alloc 14)) with 14%nat. change (0 + 14)%nat with 14%nat.
  change (14 <? 14)%nat with false. change (statusResponseSize <=? 14)%nat with true.
  cbv iota.
  destruct (decodeStatus _) as [err fin].
  destruct sc as [p|]; [|reflexivity].
  destruct err; reflexivity.
Qed.

Lemma receive_empty (c : t) :
  length (_statusArray c) = 14%nat -> (_statusIndex c < 14)%nat ->
  _receiveStatus [] c = (c, []).
Proof.
  intros Hl Hk. destruct (_error c) eqn:He.
  - unfold _receiveStatus. rewrite He. reflexivity.
  - rewrite receive_partial by (cbn [length]; auto; lia).
    cbn [length]. rewrite Nat.add_0_r, arraySet_nil.
    destruct c. reflexivity.
Qed.

Lemma run_empty_chunks (chunks : list Buffer) (c : t) :
  length (_statusArray c) = 14%nat -> (_statusIndex c < 14)%nat ->
  concat chunks = [] ->
  run (map EvData chunks) c = (c, []).
Proof.
  intros Hl Hk. induction chunks as [|d rest IH]; intros Hc; [reflexivity|].
  cbn [concat] in Hc. apply app_eq_nil in Hc as [-> Hrest].
  cbn [map run step]. rewrite receive_empty by assumption.
  cbn [andThen]. rewrite (IH Hrest). reflexivity.
Qed.

(** X10. However the 14 bytes of a status response are cut into chunks,
    empty ones included, the client ends in the same state and has done the
    same things (decoded the same frame, settled the same promise) as if
    the remaining bytes had arrived in one piece. *)
Theorem reassembly_chunks (chunks : list Buffer) (c : t) :
  length (_statusArray c) = 14%nat ->
  (_statusIndex c + length (concat chunks) = 14)%nat ->
  (0 < length (concat chunks))%nat ->
  run (map EvData chunks) c = _receiveStatus (concat chunks) c.
Proof.
  intros Hl. destruct (_error c) eqn:He.
  { intros _ _. transitivity (c, @nil Effect).
    - clear Hl. induction chunks as [|d rest IH]; [reflexivity|].
      cbn [map run step]. unfold _receiveStatus at 1. rewrite He.
      cbn [pure andThen]. rewrite IH. reflexivity.
    - unfold _receiveStatus. rewrite He. reflexivity. }
  revert c Hl He. induction chunks as [|d rest IH]; intros c Hl He Hk Hpos.
  - cbn in Hpos. lia.
  - cbn [concat] in Hk, Hpos. rewrite length_app in Hk.
    cbn [map run step concat].
    destruct (Nat.eq_dec (length (concat rest)) 0%nat) as [Hz|Hnz].
    + apply length_zero_iff_nil in Hz.
      rewrite Hz, app_nil_r. rewrite Hz in Hk. cbn [length] in Hk.
      destruct (_receiveStatus d c) as [c2 es] eqn:E.
      cbn [andThen].
      assert (Hinv : length (_statusArray c2) = 14%nat /\ (_statusIndex c2 < 14)%nat).
      { assert (Hs : reassemblyOk (fst (_receiveStatus d c))).
        { apply receiveStatus_reassemblyOk. split; [exact Hl|].
          rewrite Hz, app_nil_r in Hpos. unfold statusResponseSize. lia. }
        rewrite E in Hs. exact Hs. }
      destruct Hinv as [Hl2 Hk2].
      rewrite (run_empty_chunks rest c2 Hl2 Hk2 Hz). rewrite app_nil_r. reflexivity.
    + rewrite (receive_partial d c He Hl) by lia. cbn [andThen].
      match goal with |- context [run (map EvData rest) ?c1] => set (c1' := c1) end.
      assert (Hl1 : length (_statusArray c1') = 14%nat).
      { unfold c1'. cbn. rewrite arraySet_length by lia. exact Hl. }
      assert (He1 : _error c1' = None) by exact He.
      assert (Hk1 : (_statusIndex c1' + length (concat rest) = 14)%nat).
      { unfold c1'. cbn. lia. }
      rewrite (IH c1' Hl1 He1 Hk1) by lia.
      destruct (_receiveStatus (concat rest) c1') as [cf esf] eqn:Ef.
      cbn [app]. rewrite <- Ef. clear Ef cf esf.
      rewrite (receive_complete (concat rest) c1' He1 Hl1 Hk1).
      rewrite (receive_complete (d ++ concat rest) c He Hl)
        by (rewrite length_app; lia).
      unfold c1'. cbn [_statusIndex _statusArray set_statusIndex set_statusArray].
      rewrite arraySet_arraySet by lia.
      destruct c. reflexivity.
Qed.

Lemma reassembly_chunks_witness :
  run [EvData [0x81; 0x04; 0x23]; EvData []; EvData [0x61; 0x21; 0x05; 1; 2; 3; 4; 0x03];
       EvData [0x00; 0x0f; 0x4b]] (fst (status true Samples.liveClient))
  = _receiveStatus (_prepareBytes Samples.samplePayload) (fst (status true Samples.liveClient)).
Proof.
  apply (reassembly_chunks
           [[0x81; 0x04; 0x23]; []; [0x61; 0x21; 0x05; 1; 2; 3; 4; 0x03]; [0x00; 0x0f; 0x4b]]
           (fst (status true Samples.liveClient)));
    [reflexivity | reflexivity | cbn; lia].
Defined.

(** *** A status request and its response *)

Lemma arraySet_full (frame array : Buffer) :
  length frame = length array -> arraySet frame 0 array = frame.
Proof.
  intros H. unfold arraySet. cbn [take Nat.add app].
  rewrite drop_ge by lia. apply app_nil_r.
Qed.

(** A whole response arriving at an empty storage: the frame is decoded and
    the verdict goes to the status callback, if there is one. *)
Lemma receive_full (frame : Buffer) (c : t) :
  _error c = None -> length (_statusArray c) = 14%nat -> _statusIndex c = 0%nat ->
  length frame = 14%nat ->
  _receiveStatus frame c =
    (match _statusCallback c with
     | Some p => statusCallback p (fst (decodeStatus frame)) (snd (decodeStatus frame))
                   (set_statusArray (alloc 14) c)
     | None => pure (set_statusArray (alloc 14) c)
     end) >>> fun c => pure (set_statusIndex 0 c).
Proof.
  intros He Hl Hi Hf.
  destruct c as [o d cf dc sa si ca so e sc].
  cbn [_error _statusArray _statusIndex] in He, Hl, Hi. subst e si.
  unfold _receiveStatus.
  cbn [_error _statusIndex _statusArray set_statusArray
    set_statusIndex _options _dead _connectFailed _disconnectCallback _statusCache
    _socket _statusCallback].
  rewrite arraySet_full by lia. rewrite Hl, Hf.
  change (14 <? 0 + 14)%nat with false. change (statusResponseSize <=? 0 + 14)%nat with true.
  cbv iota. destruct (decodeStatus frame) as [err fin]. reflexivity.
Qed.

(** X11. A forced status query on a live client resumes the socket and
    writes the status request. When the 14-byte response then arrives and
    the decoder accepts it, the socket is paused again, the promise is
    resolved with the decoded status, and that status becomes the cache;
    when the decoder rejects the frame, the promise is rejected with the
    decoder's error and the cache is emptied. Either way the callback is
    gone and the storage is empty again. *)
Theorem status_roundtrip (c : t) (frame : Buffer) :
  _dead c = false -> _error c = None ->
  length (_statusArray c) = 14%nat -> _statusIndex c = 0%nat ->
  length frame = 14%nat ->
  let c1 := fst (status true c) in
  let c2 := fst (_receiveStatus frame c1) in
  snd (status true c) = [SocketResume; SocketWrite statusRequest]
  /\ (forall s, decodeStatus frame = (None, Some s) ->
        snd (_receiveStatus frame c1) = [SocketPause; PromiseResolved (PStatus false) (Some s)]
        /\ _statusCache c2 = Some s)
  /\ (forall e, fst (decodeStatus frame) = Some e ->
        snd (_receiveStatus frame c1) = [SocketPause; PromiseRejected (PStatus false) e]
        /\ _statusCache c2 = None)
  /\ _statusCallback c2 = None
  /\ paused (_socket c2) = true
  /\ _statusIndex c2 = 0%nat
  /\ _statusArray c2 = alloc 14
  /\ _dead c2 = false.
Proof.
  intros Hd He Hl Hi Hf c1 c2.
  assert (E1 : status true c =
               (set_disconnectCallback (Some (PStatus false))
                  (set_statusCallback (Some (PStatus false))
                     (set_socket (mkSocket false (errorListeners (_socket c))
                                    (pendingWrites (_socket c) ++ [None])) c)),
                [SocketResume; SocketWrite statusRequest])).
  { unfold status, statusAs. rewrite Hd. rewrite andb_false_r. cbn [andb].
    destruct c as [o d cf dc sa si ca [pa el pw] e sc]. reflexivity. }
  subst c2 c1. rewrite E1. cbn [fst snd].
  rewrite receive_full by assumption.
  generalize (decodeStatus frame). intros [err fin]. cbn [fst snd].
  destruct c as [o d cf dc sa si ca [pa el pw] e sc].
  cbn [_dead] in Hd. subst d.
  split; [reflexivity|].
  split.
  { intros s [= -> ->]. split; reflexivity. }
  split.
  { intros e' E. cbn in E. subst err. split; reflexivity. }
  destruct err; repeat split.
Qed.

Lemma status_roundtrip_witness :
  _dead Samples.liveClient = false
  /\ (exists s,
        snd (_receiveStatus Samples.customFrame (fst (status true Samples.liveClient)))
        = [SocketPause; PromiseResolved (PStatus false) (Some s)]
        /\ UfoStatus.mode s = "custom"%string)
  /\ snd (_receiveStatus (alloc 14) (fst (status true Samples.liveClient)))
     = [SocketPause; PromiseRejected (PStatus false) HeaderMismatch].
Proof.
  destruct (status_roundtrip Samples.liveClient Samples.customFrame)
    as (_ & Hok & _); try reflexivity.
  destruct (status_roundtrip Samples.liveClient (alloc 14))
    as (_ & _ & Hbad & _); try reflexivity.
  split; [reflexivity|]. split.
  - destruct (decodeStatus Samples.customFrame) as [[e|] [s|]] eqn:E;
      try (vm_compute in E; discriminate E).
    exists s. split; [apply (Hok s eq_refl)|].
    vm_compute in E. injection E as <-. reflexivity.
  - apply (Hbad HeaderMismatch). reflexivity.
Defined.

(** *** From construction to a standing connection *)

Arguments connectOptions : simpl never.

Lemma run_one (a : Action) (c : t) : run [a] c = step a c.
Proof.
  cbn [run]. destruct (step a c) as [c1 e1]. cbn. rewrite app_nil_r. reflexivity.
Qed.



(** *** Errors and intentional disconnection *)

(** X13. Once the connection stands, a transport error is never swallowed:
    the error is recorded, data that still arrives is ignored, and the close
    notification that follows marks the client dead and hands the owner the
    error together with the reject function of the promise that was
    pending; no reconnect is attempted. *)
Theorem error_then_close (c : t) (err : Error) :
  inService c -> errorListeners (_socket c) = [RecordError] ->
  let c1 := fst (step (EvError err) c) in
  let c2 := fst (run [EvError err; EvClose] c) in
  snd (run [EvError err; EvClose] c)
    = [SocketUnref; SocketDestroy; OnTcpDead (Some err) (_disconnectCallback c)]
  /\ _error c1 = Some err
  /\ (forall data, _receiveStatus data c1 = (c1, []))
  /\ _dead c2 = true
  /\ _error c2 = Some err.
Proof.
  intros (Hd & He & Hc) Hl.
  destruct c as [o d cf dc sa si ca [pa el pw] e sc].
  cbn [_dead _error _connectFailed _socket errorListeners] in Hd, He, Hc, Hl. subst.
  cbv zeta. repeat split.
Qed.

Lemma error_then_close_witness :
  inService Samples.liveClient
  /\ errorListeners (_socket Samples.liveClient) = [RecordError]
  /\ snd (run [EvError (SocketError "ECONNRESET"); EvClose] Samples.liveClient)
     = [SocketUnref; SocketDestroy; OnTcpDead (Some (SocketError "ECONNRESET")) None].
Proof.
  assert (Hs : inService Samples.liveClient) by (repeat split).
  split; [exact Hs|]. split; [reflexivity|].
  destruct (error_then_close Samples.liveClient (SocketError "ECONNRESET") Hs eq_refl)
    as (H & _).
  exact H.
Defined.

(** X14. [disconnect()] on a client that is not dead (and whose connection
    attempt has not failed) ends the socket, tears it down and notifies the
    owner once, with the recorded error and the pending reject function; it
    changes nothing but the dead flag. A second [disconnect()] does nothing
    at all. A close notification that reaches the dead client afterwards
    tears down and notifies the owner again. *)
Theorem disconnect_once (c : t) :
  _dead c = false -> _connectFailed c = false ->
  disconnect c =
    (set_dead true c,
     [SocketEnd; SocketUnref; SocketDestroy; OnTcpDead (_error c) (_disconnectCallback c)])
  /\ disconnect (fst (disconnect c)) = (fst (disconnect c), [])
  /\ _closeSocket (fst (disconnect c)) =
       (fst (disconnect c),
        [SocketUnref; SocketDestroy; OnTcpDead (_error c) (_disconnectCallback c)]).
Proof.
  intros Hd Hc.
  destruct c as [o d cf dc sa si ca so e sc].
  cbn [_dead _connectFailed] in Hd, Hc. subst.
  repeat split.
Qed.

Lemma disconnect_once_witness :
  _dead Samples.liveClient = false
  /\ snd (disconnect Samples.liveClient)
     = [SocketEnd; SocketUnref; SocketDestroy; OnTcpDead None None]
  /\ snd (run [CallDisconnect; CallDisconnect] Samples.liveClient)
     = [SocketEnd; SocketUnref; SocketDestroy; OnTcpDead None None].
Proof.
  destruct (disconnect_once Samples.liveClient eq_refl eq_refl) as (H1 & H2 & _).
  split; [reflexivity|]. split; [rewrite H1; reflexivity|].
  cbn [run step]. rewrite H1 at 1. cbn [andThen]. rewrite H1 in H2. cbn [fst] in H2.
  rewrite H2. reflexivity.
Defined.

(** *** Power and the cache *)

(** X15. On a live client with a cached status, a completed [on()] or
    [off()] changes the power field of the cache and nothing else in it; so
    with caching enabled and a static cache, the status that the next
    [status(false)] returns without touching the socket shows the new power
    state and the old colours. *)
Theorem power_updates_cache (c : t) (s : UfoStatus.t) (power : bool) :
  _dead c = false -> pendingWrites (_socket c) = [] -> _statusCache c = Some s ->
  let call := if power then CallOn else CallOff in
  let c1 := fst (run [call; EvWritten] c) in
  snd (run [call; EvWritten] c)
    = [SocketWrite (if power then powerOn else powerOff);
       PromiseResolved (if power then POn else POff) None]
  /\ _statusCache c1 = Some (UfoStatus.set_on power s)
  /\ (cache (_options c) = true -> UfoStatus.mode s = "static"%string ->
        status false c1 = (c1, [PromiseResolved (PStatus false) (Some (UfoStatus.set_on power s))])).
Proof.
  intros Hd Hp Hs.
  destruct c as [o d cf dc sa si ca [pa el pw] e sc].
  cbn [_dead _socket pendingWrites _statusCache] in Hd, Hp, Hs. subst.
  cbv zeta. destruct power.
  - split; [reflexivity|]. split; [reflexivity|].
    cbn [_options]. intros Ho Hm. unfold status, statusAs. cbn. rewrite Ho, Hm. reflexivity.
  - split; [reflexivity|]. split; [reflexivity|].
    cbn [_options]. intros Ho Hm. unfold status, statusAs. cbn. rewrite Ho, Hm. reflexivity.
Qed.

Lemma power_updates_cache_witness :
  _dead Samples.liveClient = false
  /\ (exists s, _statusCache Samples.liveClient = Some s
                /\ UfoStatus.on s = true
                /\ status false (fst (run [CallOff; EvWritten] Samples.liveClient))
                   = (fst (run [CallOff; EvWritten] Samples.liveClient),
                      [PromiseResolved (PStatus false) (Some (UfoStatus.set_on false s))])).
Proof.
  split; [reflexivity|].
  destruct (_statusCache Samples.liveClient) as [s|] eqn:E;
    [|vm_compute in E; discriminate E].
  exists s. split; [reflexivity|].
  assert (Hm : UfoStatus.mode s = "static"%string /\ UfoStatus.on s = true).
  { vm_compute in E. injection E as <-. split; reflexivity. }
  destruct Hm as [Hm Hon]. split; [exact Hon|].
  destruct (power_updates_cache Samples.liveClient s false eq_refl eq_refl E) as (_ & _ & H).
  apply H; [reflexivity | exact Hm].
Defined.

(** X16. For any four colour values, once the write of [rgbw] has
    completed on a live client with a cached status, the cache shows the
    clamped values (0 below 0, 255 above 255), the mode "static" and no
    speed, keeps the power state, and holds as its raw bytes the 8-byte
    command that was written, not a 14-byte status frame. *)
Theorem rgbw_caches_clamped (r g b w : Z) (c : t) (s0 : UfoStatus.t) :
  cache (_options c) = true -> _dead c = false ->
  pendingWrites (_socket c) = [] -> _statusCache c = Some s0 ->
  exists s,
    _statusCache (fst (run [CallRgbw r g b w; EvWritten] c)) = Some s
    /\ UfoStatus.red s = Z.max 0 (Z.min r 255)
    /\ UfoStatus.green s = Z.max 0 (Z.min g 255)
    /\ UfoStatus.blue s = Z.max 0 (Z.min b 255)
    /\ UfoStatus.white s = Z.max 0 (Z.min w 255)
    /\ UfoStatus.mode s = "static"%string
    /\ UfoStatus.speed s = None
    /\ UfoStatus.on s = UfoStatus.on s0
    /\ length (UfoStatus.raw s) = 8%nat
    /\ snd (run [CallRgbw r g b w; EvWritten] c)
       = [SocketWrite (UfoStatus.raw s); PromiseResolved PRgbw None].
Proof.
  intros Ho Hd Hp Hc.
  destruct (TcpFacts.rgbw_resolved_cached r g b w c s0 Ho Hd Hp Hc) as (Hes & Hcache & _).
  cbv zeta in Hes, Hcache.
  eexists. split; [exact Hcache|].
  cbn [UfoStatus.red UfoStatus.green UfoStatus.blue UfoStatus.white UfoStatus.mode
       UfoStatus.speed UfoStatus.on UfoStatus.raw].
  split; [unfold _clampRGBW; rewrite clamp_max_min; lia|].
  split; [unfold _clampRGBW; rewrite clamp_max_min; lia|].
  split; [unfold _clampRGBW; rewrite clamp_max_min; lia|].
  split; [unfold _clampRGBW; rewrite clamp_max_min; lia|].
  split; [reflexivity|]. split; [reflexivity|]. split; [reflexivity|].
  split; [rewrite prepareBytes_length; reflexivity|].
  exact Hes.
Qed.

Lemma rgbw_caches_clamped_witness :
  _dead Samples.liveClient = false
  /\ exists s,
       _statusCache (fst (run [CallRgbw 300 (-5) 30 40; EvWritten] Samples.liveClient))
       = Some s
       /\ UfoStatus.red s = 255 /\ UfoStatus.green s = 0.
Proof.
  split; [reflexivity|].
  destruct (_statusCache Samples.liveClient) as [s0|] eqn:E;
    [|vm_compute in E; discriminate E].
  destruct (rgbw_caches_clamped 300 (-5) 30 40 Samples.liveClient s0 eq_refl eq_refl eq_refl E)
    as (s & Hc & Hr & Hg & _).
  exists s. split; [exact Hc|]. split; [rewrite Hr | rewrite Hg]; reflexivity.
Defined.

(** *** Arguments that are refused *)

(** X17. On a live client, [builtin] with a name that is not in the table
    and [custom] with a mode other than "gradual", "jumping" and "strobe"
    reject their promise, write nothing and leave the client, its cache
    included, as it was. On a dead client the same calls resolve: the dead
    check comes before the validation. *)
Theorem invalid_arguments_rejected (c : t) :
  (forall name speed,
     mapGet builtinFunctionMap name = None ->
     builtin name speed c =
       if _dead c then (c, [PromiseResolved PBuiltin None])
       else (c, [PromiseRejected PBuiltin (NoSuchBuiltin name)]))
  /\ (forall mode speed steps,
        mode <> "gradual"%string -> mode <> "jumping"%string -> mode <> "strobe"%string ->
        custom mode speed steps c =
          if _dead c then (c, [PromiseResolved PCustom None])
          else (c, [PromiseRejected PCustom (InvalidMode mode)]))
  /\ (forall mode speed steps,
        _dead c = false ->
        (exists e, snd (custom mode speed steps c) = [PromiseRejected PCustom e])
        <-> (mode <> "gradual"%string /\ mode <> "jumping"%string /\ mode <> "strobe"%string)).
Proof.
  assert (Hnone : forall mode,
            mode <> "gradual"%string -> mode <> "jumping"%string -> mode <> "strobe"%string ->
            customModeId mode = None).
  { intros mode H1 H2 H3. unfold customModeId.
    destruct (String.eqb_spec mode "gradual"); [contradiction|].
    destruct (String.eqb_spec mode "jumping"); [contradiction|].
    destruct (String.eqb_spec mode "strobe"); [contradiction|]. reflexivity. }
  split; [|split].
  - intros name speed H. unfold builtin. rewrite H. destruct (_dead c); reflexivity.
  - intros mode speed steps H1 H2 H3. unfold custom. rewrite (Hnone mode H1 H2 H3).
    destruct (_dead c); reflexivity.
  - intros mode speed steps Hd. unfold custom. rewrite Hd. split.
    + intros [e H]. destruct (customModeId mode) as [id|] eqn:E.
      * cbn in H. discriminate H.
      * unfold customModeId in E.
        destruct (String.eqb_spec mode "gradual"); [discriminate E|].
        destruct (String.eqb_spec mode "jumping"); [discriminate E|].
        destruct (String.eqb_spec mode "strobe"); [discriminate E|]. auto.
    + intros (H1 & H2 & H3). rewrite (Hnone mode H1 H2 H3). eexists. reflexivity.
Qed.

Lemma invalid_arguments_rejected_witness :
  builtin "rainbow" 50 Samples.liveClient
    = (Samples.liveClient, [PromiseRejected PBuiltin (NoSuchBuiltin "rainbow")])
  /\ custom "fade" 10 [] Samples.liveClient
    = (Samples.liveClient, [PromiseRejected PCustom (InvalidMode "fade")])
  /\ builtin "rainbow" 50 (fst (disconnect Samples.liveClient))
    = (fst (disconnect Samples.liveClient), [PromiseResolved PBuiltin None]).
Proof.
  destruct (invalid_arguments_rejected Samples.liveClient) as (Hb & Hc & _).
  destruct (invalid_arguments_rejected (fst (disconnect Samples.liveClient))) as (Hb' & _).
  split; [apply (Hb "rainbow"%string 50); reflexivity|].
  split; [apply (Hc "fade"%string 10 []); discriminate|].
  apply (Hb' "rainbow"%string 50). reflexivity.
Defined.

End TcpExtra.

(* ===================================================================== *)
(** ** The older client (src/TcpClient.js) *)
(* ===================================================================== *)

Module LegacyFacts.
Import LegacyClient.

Section WithPower.

Variables powerOnBuffer powerOffBuffer : Buffer.

#[local] Abbreviation step := (LegacyClient.step powerOnBuffer powerOffBuffer).
#[local] Abbreviation run := (LegacyClient.run powerOnBuffer powerOffBuffer).

Lemma legacy_andThen_fst (s : Step) (g : t -> Step) :
  fst (andThen s g) = fst (g (fst s)).
Proof. destruct s as [c es]. cbn. destruct (g c). reflexivity. Qed.

Lemma legacy_andThen_snd (s : Step) (g : t -> Step) :
  snd (andThen s g) = snd s ++ snd (g (fst s)).
Proof. destruct s as [c es]. cbn. destruct (g c). reflexivity. Qed.

Lemma legacy_close_live (c : t) :
  _dead c = false -> _error c = None ->
  _closeSocket c =
    (mk (_options c) false (alloc statusResponseSize) 0 (mkSocket true None []) None
        (_statusCallback c),
     [SocketUnref; SocketDestroy; SocketNew; SocketSetNoDelay true; SocketPause;
      SocketConnect (host (_options c)) 5577
        match tcpPort (_options c) with
        | Some p => if 0 <? p then Some p else None
        | None => None
        end]).
Proof.
  intros Hd He. unfold _closeSocket. rewrite Hd, He. cbn.
  destruct (sendImmediately (_options c)) as [[]|]; reflexivity.
Qed.

(** X18. In the older client the close handler has no connect-failure
    guard: every close notification that finds the client not dead and
    without a recorded error recreates the socket and connects again, and
    leaves the client not dead and without an error, so that any number of
    such notifications in a row is answered by as many connect attempts.
    The new socket always has no-delay switched on, whatever the
    [sendImmediately] option says. *)
Theorem legacy_close_always_reconnects (c : t) (n : nat) :
  _dead c = false -> _error c = None ->
  let c' := fst (run (replicate n EvClose) c) in
  let attempt :=
    [SocketUnref; SocketDestroy; SocketNew; SocketSetNoDelay true; SocketPause;
     SocketConnect (host (_options c)) 5577
       match tcpPort (_options c) with
       | Some p => if 0 <? p then Some p else None
       | None => None
       end] in
  snd (run (replicate n EvClose) c) = concat (replicate n attempt)
  /\ _dead c' = false /\ _error c' = None /\ _options c' = _options c.
Proof.
  cbv zeta. revert c. induction n as [|n IH]; intros c Hd He.
  - cbn. auto.
  - cbn [replicate LegacyClient.run LegacyClient.step].
    rewrite legacy_andThen_fst, legacy_andThen_snd.
    rewrite (legacy_close_live c Hd He). cbn [fst snd].
    match goal with |- context [LegacyClient.run _ _ _ ?c1] => set (c1' := c1) end.
    destruct (IH c1' eq_refl eq_refl) as (Hes & Hd' & He' & Ho').
    cbn [_options] in Hes, Ho'.
    rewrite Hes. cbn [concat]. auto.
Qed.

(** X19. In the older client the error listener is installed when the
    socket is created, so a refused connection is recorded like any other
    transport error: the close that follows does not reconnect, marks the
    client dead and emits 'tcpDead' with the error, and the callback given
    to [connect] is never invoked. *)
Theorem legacy_refused_connection (options : Options) (callback : option Callback)
    (err : Error) :
  let c0 := fst (new options) in
  let c := fst (run [CallConnect callback; EvError err; EvClose] c0) in
  snd (run [CallConnect callback; EvError err; EvClose] c0)
    = [SocketConnect (host options) 5577
         match tcpPort options with
         | Some p => if 0 <? p then Some p else None
         | None => None
         end;
       SocketUnref; SocketDestroy; EmitTcpDead (Some err)]
  /\ _dead c = true
  /\ _error c = Some err
  /\ (forall cb, ~ In (Invoke cb) (snd (run [CallConnect callback; EvError err; EvClose] c0))).
Proof.
  destruct options as [h p si]. cbv zeta.
  split; [reflexivity|]. split; [reflexivity|]. split; [reflexivity|].
  intros cb H. cbn in H. repeat (destruct H as [H|H]; [discriminate H|]). exact H.
Qed.

Lemma legacy_dead_stable (a : Action) (c : t) :
  _dead c = true -> _dead (fst (step a c)) = true.
Proof.
  intros Hd. destruct a; cbn [LegacyClient.step].
  - unfold connect. rewrite Hd. exact Hd.
  - unfold disconnect. rewrite Hd. exact Hd.
  - unfold status. rewrite Hd. exact Hd.
  - unfold on. rewrite Hd. exact Hd.
  - unfold off. rewrite Hd. exact Hd.
  - unfold connected. destruct (connectListener _); exact Hd.
  - exact Hd.
  - unfold _closeSocket. rewrite Hd. reflexivity.
  - unfold written. destruct (pendingWrites _) as [|[cb|] rest]; exact Hd.
Qed.

Lemma legacy_run_dead (actions : list Action) (c : t) :
  _dead c = true -> _dead (fst (run actions c)) = true.
Proof.
  revert c; induction actions as [|a rest IH]; intros c Hd; cbn [LegacyClient.run];
    [exact Hd|].
  rewrite legacy_andThen_fst. apply IH, legacy_dead_stable, Hd.
Qed.

(** X20. In the older client [disconnect()] on a client that is not dead
    ends the socket, tears it down and emits 'tcpDead' once, with the
    recorded error. From then on, whatever calls and events follow, the
    client stays dead, and [connect], [status], [on] and [off] return
    without touching the socket and without ever invoking the callback they
    were given. *)
Theorem legacy_dead_is_silent (c : t) (actions : list Action) :
  _dead c = false ->
  let c' := fst (run actions (fst (disconnect c))) in
  snd (disconnect c) = [SocketEnd; SocketUnref; SocketDestroy; EmitTcpDead (_error c)]
  /\ _dead c' = true
  /\ (forall cb, connect cb c' = (c', []))
  /\ (forall cb, status cb c' = (c', []))
  /\ (forall cb, on powerOnBuffer cb c' = (c', []))
  /\ (forall cb, off powerOffBuffer cb c' = (c', []))
  /\ disconnect c' = (c', []).
Proof.
  intros Hd. cbv zeta.
  assert (Hdis : _dead (fst (disconnect c)) = true
                 /\ snd (disconnect c)
                    = [SocketEnd; SocketUnref; SocketDestroy; EmitTcpDead (_error c)]).
  { unfold disconnect. rewrite Hd. split; reflexivity. }
  destruct Hdis as [Hdead Hes].
  pose proof (legacy_run_dead actions _ Hdead) as Hd'.
  split; [exact Hes|]. split; [exact Hd'|].
  revert Hd'. generalize (fst (run actions (fst (disconnect c)))). intros c' Hd'.
  repeat split; intros; unfold connect, status, on, off, disconnect;
    rewrite Hd'; reflexivity.
Qed.

End WithPower.

Lemma legacy_close_always_reconnects_witness :
  let c := fst (new (mkOptions "10.0.0.5" None (Some false))) in
  _dead c = false
  /\ length (snd (run [] [] (replicate 3 EvClose) c)) = 18%nat
  /\ _dead (fst (run [] [] (replicate 3 EvClose) c)) = false.
Proof.
  cbv zeta.
  destruct (legacy_close_always_reconnects [] []
              (fst (new (mkOptions "10.0.0.5" None (Some false)))) 3 eq_refl eq_refl)
    as (Hes & Hd & _).
  split; [reflexivity|]. split; [rewrite Hes; reflexivity | exact Hd].
Defined.

Lemma legacy_dead_is_silent_witness :
  let c := fst (new (mkOptions "10.0.0.5" None None)) in
  _dead c = false
  /\ status 7%nat (fst (run [] [] [EvClose; CallOn (Some 1%nat)] (fst (disconnect c))))
     = (fst (run [] [] [EvClose; CallOn (Some 1%nat)] (fst (disconnect c))), []).
Proof.
  cbv zeta. split; [reflexivity|].
  destruct (legacy_dead_is_silent [] [] (fst (new (mkOptions "10.0.0.5" None None)))
              [EvClose; CallOn (Some 1%nat)] eq_refl) as (_ & _ & _ & H & _).
  apply H.
Defined.

End LegacyFacts.

(* ===================================================================== *)
(** ** UDP utilities: further properties *)
(* ===================================================================== *)

Module UdpExtra.
Import UdpUtils UdpSamples.

(** *** Splitting and joining *)

Lemma split_not_nil (sep : ascii) (s : jsString) : split sep s <> [].
Proof.
  destruct s as [|c s]; cbn [split]; [discriminate|].
  destruct (Ascii.eqb c sep); [discriminate|].
  destruct (split sep s); discriminate.
Qed.

Lemma join_cons (sep : ascii) (field : jsString) (fields : list jsString) :
  fields <> [] -> join sep (field :: fields) = field ++ sep :: join sep fields.
Proof. destruct fields; [contradiction|reflexivity]. Qed.

Lemma join_split (sep : ascii) (s : jsString) : join sep (split sep s) = s.
Proof.
  induction s as [|c s IH]; [reflexivity|].
  cbn [split]. destruct (Ascii.eqb_spec c sep) as [->|Hne].
  - rewrite join_cons by apply split_not_nil. rewrite IH. reflexivity.
  - destruct (split sep s) as [|f fs] eqn:E; [destruct (split_not_nil sep s E)|].
    destruct fs as [|f' fs].
    + cbn [join] in *. rewrite IH. reflexivity.
    + rewrite join_cons by discriminate.
      rewrite join_cons in IH by discriminate.
      rewrite <- IH. reflexivity.
Qed.

Lemma split_no_sep (sep : ascii) (f : jsString) :
  ~ In sep f -> split sep f = [f].
Proof.
  induction f as [|c f IH]; intros H; [reflexivity|].
  cbn [split]. destruct (Ascii.eqb_spec c sep) as [->|Hne].
  - exfalso. apply H. left. reflexivity.
  - rewrite IH by (intros Hin; apply H; right; exact Hin). reflexivity.
Qed.

Lemma split_app_sep (sep : ascii) (f rest : jsString) :
  ~ In sep f -> split sep (f ++ sep :: rest) = f :: split sep rest.
Proof.
  induction f as [|c f IH]; intros H.
  - cbn [app split]. rewrite Ascii.eqb_refl. reflexivity.
  - cbn [app split]. destruct (Ascii.eqb_spec c sep) as [->|Hne].
    + exfalso. apply H. left. reflexivity.
    + rewrite IH by (intros Hin; apply H; right; exact Hin). reflexivity.
Qed.

Lemma split_join (sep : ascii) (fields : list jsString) :
  fields <> [] -> Forall (fun f => ~ In sep f) fields ->
  split sep (join sep fields) = fields.
Proof.
  induction fields as [|f fields IH]; intros Hne Hall; [contradiction|].
  apply Forall_cons_1 in Hall as [Hf Hall].
  destruct fields as [|f' fields].
  - cbn [join]. apply split_no_sep, Hf.
  - rewrite join_cons by discriminate.
    rewrite split_app_sep by exact Hf.
    rewrite IH by (discriminate || exact Hall). reflexivity.
Qed.

(** *** The command string *)

Lemma join_unescaped (a b : jsString) (rest : list jsString) :
  join "," ((a ++ ","%char :: b) :: rest) = join "," (a :: b :: rest).
Proof.
  destruct rest as [|f rest]; [reflexivity|].
  rewrite (join_cons _ (a ++ ","%char :: b)) by discriminate.
  rewrite (join_cons _ a) by discriminate.
  rewrite (join_cons _ b) by discriminate.
  rewrite <- app_assoc. reflexivity.
Qed.

(** X21. The command string of a known command. A literal command is sent
    as it is and its arguments are dropped. Any other command is wrapped in
    the send prefix and suffix, with [=] and the comma-joined arguments in
    between when there are arguments. Argument lists without commas are
    told apart by the string: equal strings mean equal lists, so that no
    argument and one empty argument differ too. But a comma inside an
    argument is not escaped: one argument "a,b" gives the very string that
    the two arguments "a" and "b" give. *)
Theorem assembleCommand_send_arguments
    (commands : jsString -> option Command)
    (sendPrefix sendSuffix recvPrefix recvSuffix : jsString)
    (name : jsString) (command : Command) :
  commands name = Some command ->
  let send_of := fun args =>
    option_map send
      (assembleCommand commands sendPrefix sendSuffix recvPrefix recvSuffix name args) in
  (literal command = true -> forall args, send_of args = Some (cmd command))
  /\ (literal command = false ->
      send_of [] = Some (sendPrefix ++ cmd command ++ sendSuffix)
      /\ (forall args, args <> [] ->
            send_of args
            = Some (sendPrefix ++ cmd command ++ str "=" ++ join "," args ++ sendSuffix))
      /\ (forall args1 args2,
            Forall (fun f => ~ In ","%char f) args1 ->
            Forall (fun f => ~ In ","%char f) args2 ->
            send_of args1 = send_of args2 -> args1 = args2)
      /\ (forall a b rest,
            send_of ((a ++ ","%char :: b) :: rest) = send_of (a :: b :: rest))).
Proof.
  intros Hc send_of.
  assert (Hlit : literal command = true -> forall args, send_of args = Some (cmd command)).
  { intros Hl args. unfold send_of, assembleCommand. rewrite Hc, Hl. reflexivity. }
  assert (Hget : literal command = false ->
                 send_of [] = Some (sendPrefix ++ cmd command ++ sendSuffix)).
  { intros Hl. unfold send_of, assembleCommand. rewrite Hc, Hl. cbn.
    rewrite <- app_assoc. reflexivity. }
  assert (Hset : literal command = false -> forall args, args <> [] ->
                 send_of args
                 = Some (sendPrefix ++ cmd command ++ str "=" ++ join "," args ++ sendSuffix)).
  { intros Hl args Hne. unfold send_of, assembleCommand. rewrite Hc, Hl.
    destruct args as [|f args]; [contradiction|].
    cbn [length Nat.ltb Nat.leb negb option_map send].
    rewrite <- !app_assoc. reflexivity. }
  split; [exact Hlit|]. intros Hl.
  split; [exact (Hget Hl)|]. split; [exact (Hset Hl)|]. split.
  - intros args1 args2 H1 H2 E.
    assert (Hlen : forall args, args <> [] ->
              sendPrefix ++ cmd command ++ sendSuffix
              <> sendPrefix ++ cmd command ++ str "=" ++ join "," args ++ sendSuffix).
    { intros args _ E'. apply (f_equal length) in E'.
      rewrite !length_app in E'. cbn [str list_ascii_of_string length] in E'. lia. }
    destruct args1 as [|f1 args1], args2 as [|f2 args2]; [reflexivity | | |].
    + rewrite (Hget Hl), (Hset Hl) in E by discriminate.
      injection E as E. destruct (Hlen (f2 :: args2) ltac:(discriminate) E).
    + rewrite (Hget Hl), (Hset Hl) in E by discriminate.
      injection E as E. symmetry in E. destruct (Hlen (f1 :: args1) ltac:(discriminate) E).
    + rewrite !(Hset Hl) in E by discriminate.
      rewrite <- (split_join "," (f1 :: args1)) by (discriminate || assumption).
      rewrite <- (split_join "," (f2 :: args2)) by (discriminate || assumption).
      revert E. generalize (join "," (f1 :: args1)) (join "," (f2 :: args2)).
      intros j1 j2 E. injection E as E.
      apply app_inv_head in E. apply app_inv_head in E.
      change (str "=" ++ ?x) with ("="%char :: x) in E.
      injection E as E. apply app_inv_tail in E.
      rewrite E. reflexivity.
  - intros a b rest. rewrite !(Hset Hl) by discriminate.
    rewrite join_unescaped. reflexivity.
Qed.

Lemma assembleCommand_send_arguments_witness :
  let commands := fun name : jsString =>
    if jsStringEqb name (str "wifiClientSsid")
    then Some (mkCommand (str "WSSSID") false (Some (RoleString (str "ssid"))) None)
    else None in
  let send_of := fun args =>
    option_map send
      (assembleCommand commands (str "AT+") [ascii_of_nat 13] (str "+ok") (crlf ++ crlf)
                       (str "wifiClientSsid") args) in
  send_of [] = Some (str "AT+WSSSID" ++ [ascii_of_nat 13])
  /\ send_of [str "home"; str "x"] = Some (str "AT+WSSSID=home,x" ++ [ascii_of_nat 13])
  /\ send_of [str "home,x"] = send_of [str "home"; str "x"].
Proof.
  intros commands send_of.
  destruct (assembleCommand_send_arguments commands (str "AT+") [ascii_of_nat 13] (str "+ok")
              (crlf ++ crlf) (str "wifiClientSsid")
              (mkCommand (str "WSSSID") false (Some (RoleString (str "ssid"))) None)
              eq_refl) as (_ & H).
  destruct (H eq_refl) as (Hget & Hset & _ & Hcomma).
  split; [exact Hget|].
  split; [exact (Hset [str "home"; str "x"] ltac:(discriminate))|].
  exact (Hcomma (str "home") (str "x") []).
Defined.

(** *** MAC addresses *)

Lemma toLowerChar_idem (c : ascii) : toLowerChar (toLowerChar c) = toLowerChar c.
Proof. destruct c as [[] [] [] [] [] [] [] []]; reflexivity. Qed.

Lemma toLowerCase_fixed (l : jsString) :
  Forall (fun c => toLowerChar c = c) l -> toLowerCase l = l.
Proof.
  unfold toLowerCase. induction 1 as [|c l Hc _ IH]; [reflexivity|].
  cbn [map]. rewrite Hc, IH. reflexivity.
Qed.

Lemma colonPairs_cons2 (a b : ascii) (rest : jsString) :
  colonPairs (a :: b :: rest)
  = if negb (isLineTerminator a) && negb (isLineTerminator b)
    then a :: b :: ":"%char :: colonPairs rest
    else a :: colonPairs (b :: rest).
Proof. reflexivity. Qed.

Lemma colonPairs_pair (a b : ascii) (rest : jsString) :
  isLineTerminator a = false -> isLineTerminator b = false ->
  colonPairs (a :: b :: rest) = a :: b :: ":"%char :: colonPairs rest.
Proof. intros Ha Hb. rewrite colonPairs_cons2, Ha, Hb. reflexivity. Qed.

(** Whatever [colonPairs] puts out is a character of its input or a
    colon. *)
Lemma colonPairs_Forall (P : ascii -> Prop) (l : jsString) :
  P ":"%char -> Forall P l -> Forall P (colonPairs l).
Proof.
  intros Hc. remember (length l) as n eqn:Hn.
  revert l Hn. induction n as [n IH] using lt_wf_ind. intros l Hn Hl.
  destruct l as [|a [|b rest]]; [constructor | exact Hl |].
  rewrite colonPairs_cons2.
  apply Forall_cons_1 in Hl as [Ha Hl]. pose proof Hl as Hl'.
  apply Forall_cons_1 in Hl' as [Hb Hrest].
  destruct (negb (isLineTerminator a) && negb (isLineTerminator b)).
  - constructor; [exact Ha|]. constructor; [exact Hb|]. constructor; [exact Hc|].
    apply (IH (length rest)); [subst n; cbn; lia | reflexivity | exact Hrest].
  - constructor; [exact Ha|].
    apply (IH (length (b :: rest))); [subst n; cbn; lia | reflexivity | exact Hl].
Qed.

Lemma dropSeparators_colonPairs (l : jsString) :
  dropSeparators (colonPairs l) = dropSeparators l.
Proof.
  remember (length l) as n eqn:Hn.
  revert l Hn. induction n as [n IH] using lt_wf_ind. intros l Hn.
  destruct l as [|a [|b rest]]; [reflexivity | reflexivity |].
  rewrite colonPairs_cons2.
  pose proof (IH (length rest) ltac:(subst n; cbn; lia) rest eq_refl) as IH2.
  pose proof (IH (length (b :: rest)) ltac:(subst n; cbn; lia) (b :: rest) eq_refl) as IH1.
  clear IH. revert IH1 IH2.
  generalize (colonPairs rest) (colonPairs (b :: rest)). intros r2 r1 IH1 IH2.
  unfold dropSeparators in *.
  destruct (negb (isLineTerminator a) && negb (isLineTerminator b)).
  - cbn [List.filter]. rewrite IH2.
    change (negb (Ascii.eqb ":" "-" || Ascii.eqb ":" ":")) with false. cbv iota.
    reflexivity.
  - cbn [List.filter] in *. rewrite IH1. reflexivity.
Qed.

Lemma dropSeparators_idem (l : jsString) :
  dropSeparators (dropSeparators l) = dropSeparators l.
Proof.
  unfold dropSeparators. induction l as [|c l IH]; [reflexivity|].
  cbn [List.filter]. destruct (negb _) eqn:E; cbn [List.filter]; rewrite ?E, IH; reflexivity.
Qed.

(** The shape of [colonPairs] on an even number of characters that [.]
    matches: a colon behind each pair. *)
Lemma colonPairs_even (n : nat) (l : jsString) :
  length l = (2 * n)%nat ->
  Forall (fun c => isLineTerminator c = false) l ->
  length (colonPairs l) = (3 * n)%nat
  /\ (forall q, (q < n)%nat ->
        colonPairs l !! (3 * q)%nat = l !! (2 * q)%nat
        /\ colonPairs l !! (3 * q + 1)%nat = l !! (2 * q + 1)%nat
        /\ colonPairs l !! (3 * q + 2)%nat = Some ":"%char).
Proof.
  revert l. induction n as [|n IH]; intros l Hlen Hall.
  - destruct l; [|discriminate Hlen]. split; [reflexivity|]. intros q Hq. lia.
  - destruct l as [|a [|b rest]]; [discriminate Hlen | cbn in Hlen; lia |].
    apply Forall_cons_1 in Hall as [Ha Hall]. apply Forall_cons_1 in Hall as [Hb Hall].
    rewrite colonPairs_pair by assumption.
    destruct (IH rest ltac:(cbn in Hlen; lia) Hall) as [IHlen IHlook].
    split; [cbn [length]; rewrite IHlen; lia|].
    intros q Hq. destruct q as [|q].
    + repeat split.
    + replace (3 * S q)%nat with (S (S (S (3 * q)))) by lia.
      replace (S (S (S (3 * q))) + 1)%nat with (S (S (S (3 * q + 1)))) by lia.
      replace (S (S (S (3 * q))) + 2)%nat with (S (S (S (3 * q + 2)))) by lia.
      replace (2 * S q)%nat with (S (S (2 * q))) by lia.
      replace (S (S (2 * q)) + 1)%nat with (S (S (2 * q + 1))) by lia.
      cbn [lookup list_lookup]. apply IHlook. lia.
Qed.

(** X22. For a MAC address that, lower-cased and without its separators,
    consists of n >= 1 pairs of characters, [normalizeMac] yields the
    lower-case form with a colon between the pairs: 3n - 1 characters, pair
    q at positions 3q and 3q + 1, a colon behind every pair but the last.
    Removing the colons gives the digits back, the result depends only on
    the digits (not on case or separators of the input), and normalising it
    again changes nothing. *)
Theorem normalizeMac_canonical (mac : jsString) (n : nat) :
  let digits := dropSeparators (toLowerCase mac) in
  length digits = (2 * n)%nat -> (1 <= n)%nat ->
  Forall (fun c => isLineTerminator c = false) digits ->
  length (normalizeMac mac) = (3 * n - 1)%nat
  /\ (forall q, (q < n)%nat ->
        normalizeMac mac !! (3 * q)%nat = digits !! (2 * q)%nat
        /\ normalizeMac mac !! (3 * q + 1)%nat = digits !! (2 * q + 1)%nat
        /\ ((q < n - 1)%nat -> normalizeMac mac !! (3 * q + 2)%nat = Some ":"%char))
  /\ dropSeparators (normalizeMac mac) = digits
  /\ normalizeMac (normalizeMac mac) = normalizeMac mac
  /\ (forall other, dropSeparators (toLowerCase other) = digits ->
        normalizeMac other = normalizeMac mac).
Proof.
  intros digits Hlen Hn Hall.
  destruct (colonPairs_even n digits Hlen Hall) as [Hcl Hlook].
  assert (Hnm : normalizeMac mac = take (3 * n - 1) (colonPairs digits)).
  { unfold normalizeMac, dropLast. fold digits. rewrite Hcl. reflexivity. }
  assert (Hlast : colonPairs digits = normalizeMac mac ++ [":"%char]).
  { rewrite Hnm. rewrite <- (take_drop (3 * n - 1) (colonPairs digits)) at 1.
    f_equal.
    destruct (Hlook (n - 1)%nat ltac:(lia)) as (_ & _ & H).
    replace (3 * (n - 1) + 2)%nat with (3 * n - 1)%nat in H by lia.
    apply drop_S in H.
    rewrite H. f_equal. apply drop_ge. rewrite Hcl. lia. }
  assert (Hds : dropSeparators (normalizeMac mac) = digits).
  { pose proof (dropSeparators_colonPairs digits) as E.
    rewrite Hlast in E. unfold dropSeparators in E at 1.
    rewrite List.filter_app in E. cbn [List.filter] in E.
    change (negb (Ascii.eqb ":" "-" || Ascii.eqb ":" ":")) with false in E. cbv iota in E.
    rewrite app_nil_r in E. fold (dropSeparators (normalizeMac mac)) in E.
    rewrite E. unfold digits. apply dropSeparators_idem. }
  assert (Hlow : toLowerCase (normalizeMac mac) = normalizeMac mac).
  { assert (Hd : Forall (fun c => toLowerChar c = c) digits).
    { unfold digits, dropSeparators, toLowerCase.
      apply List.Forall_forall. intros c Hc. apply filter_In in Hc as [Hc _].
      apply in_map_iff in Hc as (c0 & <- & _). apply toLowerChar_idem. }
    assert (Hcp : Forall (fun c => toLowerChar c = c) (colonPairs digits))
      by (apply colonPairs_Forall; [reflexivity | exact Hd]).
    rewrite Hnm. apply toLowerCase_fixed, Forall_take, Hcp. }
  split; [rewrite Hnm, length_take, Hcl; lia|].
  split.
  { intros q Hq. destruct (Hlook q Hq) as (H0 & H1 & H2).
    rewrite Hnm. rewrite !lookup_take_lt by lia.
    split; [exact H0|]. split; [exact H1|].
    intros Hq'. rewrite lookup_take_lt by lia. exact H2. }
  split; [exact Hds|].
  split.
  { unfold normalizeMac at 1. rewrite Hlow, Hds. reflexivity. }
  intros other Ho. unfold normalizeMac. rewrite Ho. reflexivity.
Qed.

Lemma normalizeMac_canonical_witness :
  length (dropSeparators (toLowerCase (str "AC-CF-23-AA-BB-CC"))) = (2 * 6)%nat
  /\ normalizeMac (str "AC-CF-23-AA-BB-CC") = str "ac:cf:23:aa:bb:cc"
  /\ normalizeMac (str "accf23aabbcc") = normalizeMac (str "AC-CF-23-AA-BB-CC")
  /\ normalizeMac (normalizeMac (str "AC-CF-23-AA-BB-CC"))
     = normalizeMac (str "AC-CF-23-AA-BB-CC")
  /\ normalizeMac (map ascii_of_nat [192; 66; 45; 222; 113]%nat)
     = map ascii_of_nat [224; 98; 58; 254; 113]%nat
  /\ dropSeparators (normalizeMac (map ascii_of_nat [192; 66; 45; 222; 113]%nat))
     = map ascii_of_nat [224; 98; 254; 113]%nat.
Proof.
  assert (Hall : Forall (fun c => isLineTerminator c = false)
                   (dropSeparators (toLowerCase (str "AC-CF-23-AA-BB-CC"))))
    by (vm_compute; repeat (constructor; [reflexivity|]); constructor).
  destruct (normalizeMac_canonical (str "AC-CF-23-AA-BB-CC") 6 eq_refl ltac:(lia) Hall)
    as (_ & _ & _ & Hidem & Hother).
  assert (Hall' : Forall (fun c => isLineTerminator c = false)
                    (dropSeparators (toLowerCase (map ascii_of_nat [192; 66; 45; 222; 113]%nat))))
    by (vm_compute; repeat (constructor; [reflexivity|]); constructor).
  destruct (normalizeMac_canonical (map ascii_of_nat [192; 66; 45; 222; 113]%nat) 2 eq_refl
              ltac:(lia) Hall') as (_ & _ & Hdigits & _).
  split; [reflexivity|]. split; [reflexivity|].
  split; [apply Hother; reflexivity|]. split; [exact Hidem|].
  split; [reflexivity | rewrite Hdigits; reflexivity].
Defined.

(** *** Replies to the hello *)

(** A split has a second field exactly when the string has a separator. *)
Lemma split_second_field (sep : ascii) (s : jsString) :
  split sep s !! 1%nat = None <-> ~ In sep s.
Proof.
  induction s as [|c s IH]; [cbn; tauto|].
  cbn [split]. destruct (Ascii.eqb_spec c sep) as [->|Hne].
  - destruct (split sep s) as [|f fs] eqn:E; [destruct (split_not_nil sep s E)|].
    cbn. split; [discriminate|]. intros H. exfalso. apply H. left. reflexivity.
  - destruct (split sep s) as [|f fs] eqn:E; [destruct (split_not_nil sep s E)|].
    change (((c :: f) :: fs) !! 1%nat) with ((f :: fs) !! 1%nat).
    rewrite IH. cbn [In]. split.
    + intros H [Hc|Hin]; [apply Hne; exact Hc | exact (H Hin)].
    + intros H Hin. apply H. right. exact Hin.
Qed.

(** X23. The parser of hello replies takes the first three comma-separated
    fields as address, MAC and model, normalises the MAC and ignores any
    further field; with two fields the model is left undefined. It throws
    exactly on the replies that have no comma at all. *)
Theorem helloResponseParser_fields (ip mac model : jsString) (more : list jsString) :
  ~ In ","%char ip -> ~ In ","%char mac -> ~ In ","%char model ->
  Forall (fun f => ~ In ","%char f) more ->
  helloResponseParser (join "," (ip :: mac :: model :: more))
    = Some (mkHello ip (normalizeMac mac) (Some model))
  /\ helloResponseParser (join "," [ip; mac]) = Some (mkHello ip (normalizeMac mac) None)
  /\ (forall response, helloResponseParser response = None <-> ~ In ","%char response).
Proof.
  intros Hip Hmac Hmodel Hmore.
  split; [|split].
  - unfold helloResponseParser.
    rewrite split_join by (discriminate || (repeat (constructor; [assumption|]); exact Hmore)).
    reflexivity.
  - unfold helloResponseParser.
    rewrite split_join by (discriminate || (repeat (constructor; [assumption|]); constructor)).
    reflexivity.
  - intros response. rewrite <- split_second_field.
    unfold helloResponseParser.
    destruct (split "," response !! 1%nat); [split; discriminate | tauto].
Qed.

Lemma helloResponseParser_fields_witness :
  helloResponseParser (str "10.0.0.5,ACCF23AABBCC,HF-LPB100")
    = Some (mkHello (str "10.0.0.5") (str "ac:cf:23:aa:bb:cc") (Some (str "HF-LPB100")))
  /\ helloResponseParser (str "HF-A11ASSISTHREAD") = None.
Proof.
  destruct (helloResponseParser_fields (str "10.0.0.5") (str "ACCF23AABBCC") (str "HF-LPB100") []
              ltac:(vm_compute; intuition discriminate)
              ltac:(vm_compute; intuition discriminate)
              ltac:(vm_compute; intuition discriminate)
              ltac:(constructor)) as (Hthree & _ & Hnone).
  split; [exact Hthree|].
  apply Hnone. vm_compute. intuition discriminate.
Defined.

(** *** Discovery, from the first call to the callback *)





(** X25. A discovery whose broadcast fails: the error of the send is
    handed to the 'error' listener, no timer is ever started or cleared,
    the socket is closed and the callback is called with that error and an
    empty array; a message that arrives afterwards changes nothing. *)
Theorem discover_send_failure (defaultHello : jsString) (ref : nat)
    (options : DiscoverOptions) (err : Error) :
  let s0 := discover defaultHello ref options in
  let d0 := fst s0 in
  let s := discoverRun [Listening; Sent (Some err)] s0 in
  snd s = snd s0 ++
          [SetBroadcast true; Send (hello d0) (remotePort d0) (str "255.255.255.255");
           CloseSocket; Callback (Some err) []]
  /\ (forall ms, ~ In (SetTimeout ms) (snd s))
  /\ ~ In ClearTimeout (snd s)
  /\ (forall msg, discoverRun [Message msg] s = s).
Proof.
  intros s0 d0 s.
  assert (Hs : snd s = snd s0 ++
          [SetBroadcast true; Send (hello d0) (remotePort d0) (str "255.255.255.255");
           CloseSocket; Callback (Some err) []]).
  { unfold s, d0, s0, discover. cbn. reflexivity. }
  split; [exact Hs|].
  split; [|split].
  - intros ms Hin. rewrite Hs in Hin. unfold s0, discover in Hin. cbn in Hin.
    intuition discriminate.
  - intros Hin. rewrite Hs in Hin. unfold s0, discover in Hin. cbn in Hin.
    intuition discriminate.
  - intros msg. unfold s, s0, discover. cbn. rewrite ?app_nil_r. reflexivity.
Qed.

(** *** Decoding a framed response *)

Lemma startsWith_app (p s : jsString) : startsWith (p ++ s) p = true.
Proof.
  unfold startsWith, jsStringEqb. apply bool_decide_eq_true.
  rewrite take_app_length. reflexivity.
Qed.

Lemma endsWith_app (v suffix : jsString) : endsWith (v ++ suffix) suffix = true.
Proof.
  unfold endsWith, jsStringEqb. rewrite length_app.
  apply andb_true_iff. split; [apply Nat.leb_le; lia|].
  apply bool_decide_eq_true.
  replace (length v + length suffix - length suffix)%nat with (length v) by lia.
  apply drop_app_length.
Qed.

(** White space does not start with [=]. *)
Lemma startsWith_eq_ws (w : jsString) :
  Forall (fun c => isWhiteSpace c = true) w -> startsWith w (str "=") = false.
Proof.
  intros H. unfold startsWith, jsStringEqb. apply bool_decide_eq_false.
  destruct H as [|c w Hc _]; [discriminate|].
  cbn. intros E. injection E as ->. discriminate Hc.
Qed.

(** X26. Decoding the answer to a command, where the receive suffix is
    white space and at least as long as the receive prefix: an answer of the
    form prefix, [=], value, suffix is decoded to the trimmed value, as one
    string where the command's role for the mode (set with arguments, get
    without) is a non-empty string, split at the commas where it is an
    array, and to nothing for any other role or an empty value; a bare
    acknowledgement, prefix and suffix only, is decoded to nothing. *)
Theorem assembleCommand_recv_framed
    (commands : jsString -> option Command)
    (sendPrefix sendSuffix recvPrefix recvSuffix : jsString)
    (name : jsString) (setArgs : list jsString) (a : Assembled) (value : jsString) :
  Forall (fun c => isWhiteSpace c = true) recvSuffix ->
  (length recvPrefix <= length recvSuffix)%nat ->
  assembleCommand commands sendPrefix sendSuffix recvPrefix recvSuffix name setArgs = Some a ->
  exists command,
    commands name = Some command
    /\ recvFn a (recvPrefix ++ str "=" ++ value ++ recvSuffix)
       = match trim value with
         | [] => []
         | v => match orFalse (if (0 <? length setArgs)%nat then set command else get command) with
                | ThisArray => split "," v
                | ThisString _ => [v]
                | ThisOther => []
                end
         end
    /\ recvFn a (recvPrefix ++ recvSuffix) = [].
Proof.
  intros Hws Hlen Ha. unfold assembleCommand in Ha.
  destruct (commands name) as [command|]; [|discriminate Ha].
  exists command. split; [reflexivity|].
  injection Ha as <-. cbn [recvFn].
  generalize (orFalse (if (0 <? length setArgs)%nat then set command else get command)).
  intros this.
  rewrite !(UdpFacts.recv_agrees_whitespace_suffix recvPrefix recvSuffix this _ Hws Hlen).
  unfold recv_documented, substringFrom, substringTo. cbv zeta.
  split.
  - rewrite startsWith_app, drop_app_length.
    change (str "=" ++ value ++ recvSuffix) with ("="%char :: value ++ recvSuffix).
    change (startsWith ("="%char :: value ++ recvSuffix) (str "=")) with true. cbv iota.
    change (drop 1 ("="%char :: value ++ recvSuffix)) with (value ++ recvSuffix).
    rewrite endsWith_app, length_app.
    replace (length value + length recvSuffix - length recvSuffix)%nat
      with (length value) by lia.
    rewrite take_app_length. destruct (trim value); reflexivity.
  - rewrite startsWith_app, drop_app_length.
    rewrite (startsWith_eq_ws recvSuffix Hws).
    rewrite (endsWith_app [] recvSuffix : endsWith recvSuffix recvSuffix = true).
    rewrite Nat.sub_diag. reflexivity.
Qed.

Lemma assembleCommand_recv_framed_witness :
  let commands := fun name : jsString =>
    if jsStringEqb name (str "wifiClientSsid")
    then Some (mkCommand (str "WSSSID") false (Some (RoleString (str "ssid"))) None)
    else None in
  match assembleCommand commands (str "AT+") [ascii_of_nat 13] (str "+ok") (crlf ++ crlf)
                        (str "wifiClientSsid") [] with
  | Some a =>
      recvFn a (str "+ok" ++ str "=" ++ str "home" ++ crlf ++ crlf) = [str "home"]
      /\ recvFn a (str "+ok" ++ str "=" ++ [ascii_of_nat 160] ++ crlf ++ crlf) = []
      /\ recvFn a (str "+ok" ++ crlf ++ crlf) = []
  | None => False
  end.
Proof.
  intros commands.
  destruct (assembleCommand commands (str "AT+") [ascii_of_nat 13] (str "+ok") (crlf ++ crlf)
              (str "wifiClientSsid") []) as [a|] eqn:Ha; [|vm_compute in Ha; discriminate Ha].
  assert (Hws : Forall (fun c => isWhiteSpace c = true) (crlf ++ crlf))
    by (vm_compute; repeat (constructor; [reflexivity|]); constructor).
  assert (Hlen : (length (str "+ok") <= length (crlf ++ crlf))%nat) by (vm_compute; lia).
  destruct (assembleCommand_recv_framed commands (str "AT+") [ascii_of_nat 13] (str "+ok")
              (crlf ++ crlf) (str "wifiClientSsid") [] a (str "home") Hws Hlen Ha)
    as (command & Hc & Hvalue & Hack).
  destruct (assembleCommand_recv_framed commands (str "AT+") [ascii_of_nat 13] (str "+ok")
              (crlf ++ crlf) (str "wifiClientSsid") [] a [ascii_of_nat 160] Hws Hlen Ha)
    as (command' & Hc' & Hnbsp & _).
  vm_compute in Hc. injection Hc as <-.
  vm_compute in Hc'. injection Hc' as <-.
  split; [rewrite Hvalue; reflexivity|].
  split; [rewrite Hnbsp; reflexivity | exact Hack].
Defined.

End UdpExtra.
